(** * Patient alerts: risk scoring, batch classification and the paginated
      fetch client with retry and backoff

    Shallow embedding of
      - the scoring helpers and the batch classifier of [src/app/page.tsx]
        ([parseNumber], [getBloodPressureScore], [getTemperatureScore],
        [getAgeScore], [parseBloodPressureReading], [normalizePatient],
        [fetchPatients]), and
      - the fetch client of [lib/demomed] ([fetchWithRetry],
        [fetchAllPatients]).

    Modelling conventions.
      - A finite JavaScript number is kept as the exact rational it
        denotes ([Q]); the literals [99.6], [100.9], ... are the decimal
        values written in the source.  Comparisons of finite doubles agree
        with comparisons of their values; rounding of decimal text to the
        nearest double and overflow of huge literals to [Infinity] are not
        modelled.
      - Strings are [string]; only the ASCII white space characters are
        recognised by [trim].
      - Integers that count (page numbers, attempts, milliseconds, status
        codes) are [Z].
      - Network, timer and environment are explicit: a [Server] answers the
        n-th request, the [World] records how many requests were sent and
        which delays were waited for. *)

From Stdlib Require Import QArith Qround Lqa ZArith String Ascii List.
From stdpp Require Import base list strings gmap pretty.
From Stdlib Require Import Qpower.

#[local] Set Warnings "-clear-no-such-hyp".

Open Scope Z_scope.

(** ** JavaScript values *)

Inductive jsnum : Type :=
  | NaN
  | PosInfinity
  | NegInfinity
  | Finite (q : Q).

(** What [JSON.parse] can put in a field typed [unknown]. *)
Inductive jsval : Type :=
  | JUndefined
  | JNull
  | JBool (b : bool)
  | JNumber (n : jsnum)
  | JString (s : string)
  | JObject.

Declare Scope js_scope.
Delimit Scope js_scope with js.
Notation "x >= y" := (Qle_bool y x) : js_scope.
Notation "x <= y" := (Qle_bool x y) : js_scope.
Notation "x < y" := (negb (Qle_bool y x)) : js_scope.
Notation "x > y" := (negb (Qle_bool x y)) : js_scope.

(** ** Text helpers: [trim], [split], [Number(...)], [String(...)] *)

Module Text.

(** White space within the ASCII range, over which the texts are taken. *)
Definition isWhiteSpace (c : ascii) : bool :=
  let n := nat_of_ascii c in
  Nat.eqb n 32 || (Nat.leb 9 n && Nat.leb n 13).

Fixpoint trimStart (cs : list ascii) : list ascii :=
  match cs with
  | c :: cs' => if isWhiteSpace c then trimStart cs' else cs
  | [] => []
  end.

Definition trimChars (cs : list ascii) : list ascii :=
  rev (trimStart (rev (trimStart cs))).

Definition trim (s : string) : string :=
  string_of_list_ascii (trimChars (list_ascii_of_string s)).

(** [s.split(sep)] for a one-character separator. *)
Fixpoint splitChars (sep : ascii) (cs : list ascii) : list (list ascii) :=
  match cs with
  | [] => [[]]
  | c :: cs' =>
      if Ascii.eqb c sep then [] :: splitChars sep cs'
      else match splitChars sep cs' with
           | part :: parts => (c :: part) :: parts
           | [] => [[c]]
           end
  end.

Definition split (sep : ascii) (s : string) : list string :=
  map string_of_list_ascii (splitChars sep (list_ascii_of_string s)).

Definition includes (sep : ascii) (s : string) : bool :=
  existsb (Ascii.eqb sep) (list_ascii_of_string s).

(** Value of a digit in the given base, if it is one. *)
Definition digitValue (base : N) (c : ascii) : option N :=
  let n := N_of_ascii c in
  let v :=
    if (48 <=? n)%N && (n <=? 57)%N then Some (n - 48)%N
    else if (97 <=? n)%N && (n <=? 102)%N then Some (n - 87)%N
    else if (65 <=? n)%N && (n <=? 70)%N then Some (n - 55)%N
    else None in
  match v with
  | Some d => if (d <? base)%N then Some d else None
  | None => None
  end.

(** Longest prefix of digits, and what follows it. *)
Fixpoint takeDigits (base : N) (cs : list ascii) : list N * list ascii :=
  match cs with
  | c :: cs' =>
      match digitValue base c with
      | Some d => let '(ds, rest) := takeDigits base cs' in (d :: ds, rest)
      | None => ([], cs)
      end
  | [] => ([], [])
  end.

Definition fromDigits (base : N) (ds : list N) : Z :=
  Z.of_N (fold_left (fun acc d => (acc * base + d)%N) ds 0%N).

Definition pow10 (e : Z) : Q :=
  if 0 <=? e then inject_Z (10 ^ e) else 1 # Z.to_pos (10 ^ (- e)).

(** ExponentPart, or nothing. *)
Definition parseExponent (cs : list ascii) : option Z :=
  match cs with
  | [] => Some 0
  | c :: cs' =>
      if Ascii.eqb c "e" || Ascii.eqb c "E" then
        let '(sign, cs'') :=
          match cs' with
          | "+"%char :: r => (1, r)
          | "-"%char :: r => (-1, r)
          | _ => (1, cs')
          end in
        match takeDigits 10 cs'' with
        | ((_ :: _) as ds, []) => Some (sign * fromDigits 10 ds)
        | _ => None
        end
      else None
  end.

(** StrUnsignedDecimalLiteral without [Infinity]. *)
Definition parseUnsignedDecimal (cs : list ascii) : option Q :=
  let '(ip, r1) := takeDigits 10 cs in
  let '(fp, r2) :=
    match r1 with
    | "."%char :: r => takeDigits 10 r
    | _ => ([], r1)
    end in
  match ip ++ fp with
  | [] => None
  | ds =>
      match parseExponent r2 with
      | Some e =>
          Some (inject_Z (fromDigits 10 ds) * pow10 (e - Z.of_nat (length fp)))%Q
      | None => None
      end
  end.

Definition infinityChars : list ascii := list_ascii_of_string "Infinity".

Definition parseSigned (neg : bool) (cs : list ascii) : jsnum :=
  if decide (cs = infinityChars) then (if neg then NegInfinity else PosInfinity)
  else match parseUnsignedDecimal cs with
       | Some q => Finite (if neg then - q else q)%Q
       | None => NaN
       end.

Definition parseRadix (base : N) (cs : list ascii) : jsnum :=
  match takeDigits base cs with
  | ((_ :: _) as ds, []) => Finite (inject_Z (fromDigits base ds))
  | _ => NaN
  end.

(** [Number(s)] on a string: StringToNumber.  The value of the text is
    kept exact: it is not rounded to the nearest double and a large
    exponent does not overflow to [Infinity]. *)
Definition Number (s : string) : jsnum :=
  match trimChars (list_ascii_of_string s) with
  | [] => Finite 0
  | "0"%char :: "x"%char :: cs | "0"%char :: "X"%char :: cs => parseRadix 16 cs
  | "0"%char :: "o"%char :: cs | "0"%char :: "O"%char :: cs => parseRadix 8 cs
  | "0"%char :: "b"%char :: cs | "0"%char :: "B"%char :: cs => parseRadix 2 cs
  | "+"%char :: cs => parseSigned false cs
  | "-"%char :: cs => parseSigned true cs
  | cs => parseSigned false cs
  end.

(** Scale [num/den] by ten until it is an integer: [(m, j)] with
    [num/den = m / 10^j].  A denominator dividing a power of ten needs at
    most as many steps as it has bits. *)
Fixpoint scaleToInteger (fuel : nat) (num : Z) (den : Z) (j : Z) : Z * Z :=
  if num mod den =? 0 then (num / den, j)
  else match fuel with
       | O => (num / den, j)
       | S fuel' => scaleToInteger fuel' (num * 10) den (j + 1)
       end.

Fixpoint stripZeros (fuel : nat) (m : Z) (e : Z) : Z * Z :=
  match fuel with
  | O => (m, e)
  | S fuel' =>
      if (m mod 10 =? 0) && negb (m =? 0) then stripZeros fuel' (m / 10) (e + 1)
      else (m, e)
  end.

Definition zeros (n : Z) : string :=
  string_of_list_ascii (repeat "0"%char (Z.to_nat n)).

(** [String(x)] for a finite number: Number::toString in base ten, on the
    digits of the exact value. *)
Definition String_of_number (x : Q) : string :=
  if Qeq_bool x 0 then "0"
  else
    let neg := negb (Qle_bool 0 x) in
    let '(m0, j) :=
      scaleToInteger (Pos.size_nat (Qden x)) (Z.abs (Qnum x)) (Zpos (Qden x)) 0 in
    let '(s, e) := stripZeros (Z.to_nat (Z.log2 m0 + 1)) m0 (- j) in
    let digits := pretty (Z.to_N s) in
    let k := Z.of_nat (String.length digits) in
    let n := k + e in
    let body :=
      if (k <=? n) && (n <=? 21) then digits +:+ zeros (n - k)
      else if (0 <? n) && (n <=? 21) then
        substring 0 (Z.to_nat n) digits +:+ "." +:+
        substring (Z.to_nat n) (Z.to_nat (k - n)) digits
      else if (-6 <? n) && (n <=? 0) then "0." +:+ zeros (- n) +:+ digits
      else
        let ex := n - 1 in
        let mant :=
          if k =? 1 then digits
          else substring 0 1 digits +:+ "." +:+ substring 1 (Z.to_nat (k - 1)) digits in
        mant +:+ "e" +:+ (if ex <? 0 then "-" else "+") +:+ pretty (Z.to_N (Z.abs ex)) in
    if neg then "-" +:+ body else body.

End Text.

(** ** Scoring ([src/app/page.tsx]) *)

Definition HIGH_FEVER_THRESHOLD : Q := 101.

Definition parseNumber (value : string) : option Q :=
  let trimmed := Text.trim value in
  if decide (trimmed = "") then None
  else match Text.Number trimmed with
       | Finite parsed => Some parsed
       | _ => None
       end.

Definition getBloodPressureScore (systolicValue diastolicValue : string) : Z :=
  match parseNumber systolicValue, parseNumber diastolicValue with
  | Some systolic, Some diastolic =>
      if (systolic >= 140)%js || (diastolic >= 90)%js then 4
      else if ((systolic >= 130)%js && (systolic <= 139)%js)
              || ((diastolic >= 80)%js && (diastolic <= 89)%js) then 3
      else if (systolic >= 120)%js && (systolic <= 129)%js && (diastolic < 80)%js then 2
      else if (systolic < 120)%js && (diastolic < 80)%js then 1
      else 0
  | _, _ => 0
  end.

Definition getTemperatureScore (temperatureValue : string) : Z :=
  match parseNumber temperatureValue with
  | None => 0
  | Some temperature =>
      if (temperature >= HIGH_FEVER_THRESHOLD)%js then 2
      else if (temperature >= 99.6)%js && (temperature <= 100.9)%js then 1
      else if (temperature <= 99.5)%js then 0
      else 0
  end.

Definition getAgeScore (ageValue : string) : Z :=
  match parseNumber ageValue with
  | None => 0
  | Some age =>
      if (age < 0)%js then 0
      else if (age > 65)%js then 2
      else if (age >= 40)%js then 1
      else if (age < 40)%js then 1
      else 0
  end.


(** ** Raw and normalized patients *)

Module Raw.
(** [type Patient]: every field is [unknown]; an absent field reads as
    [JUndefined]. *)
Record Patient : Type := {
  patient_id : jsval;
  id : jsval;
  blood_pressure : jsval;
  temperature : jsval;
  age : jsval;
}.
End Raw.

Module Norm.
(** What [normalizePatient] returns when it does not return [null]. *)
Record Patient : Type := {
  id : string;
  bpScore : Z;
  tempScore : Z;
  ageScore : Z;
  total : Z;
  temperature : option Q;
  hasInvalid : bool;
}.
End Norm.

Record Reading : Type := {
  systolic : option string;
  diastolic : option string;
  valid : bool;
}.

Definition noReading : Reading :=
  {| systolic := None; diastolic := None; valid := false |}.

(** [!s] for a value that is a string or [undefined]. *)
Definition falsy (s : option string) : bool :=
  match s with
  | Some s => bool_decide (s = "")
  | None => true
  end.

Definition parseBloodPressureReading (raw : jsval) : Reading :=
  match raw with
  | JString raw =>
      let trimmed := Text.trim raw in
      if negb (Text.includes "/" trimmed) then noReading
      else
        let parts := Text.split "/" trimmed in
        let systolicRaw := parts !! 0%nat in
        let diastolicRaw := parts !! 1%nat in
        if falsy systolicRaw || falsy diastolicRaw then noReading
        else
          let systolic := parseNumber (default "" systolicRaw) in
          let diastolic := parseNumber (default "" diastolicRaw) in
          let valid := bool_decide (systolic ≠ None) && bool_decide (diastolic ≠ None) in
          {| systolic := if valid then Text.String_of_number <$> systolic else None;
             diastolic := if valid then Text.String_of_number <$> diastolic else None;
             valid := valid |}
  | _ => noReading
  end.

Definition parseTemperatureValue (raw : jsval) : option Q :=
  match raw with
  | JNumber (Finite raw) => Some raw
  | JNumber _ => None
  | JString raw => parseNumber raw
  | _ => None
  end.

Definition parseAgeValue (raw : jsval) : option Q :=
  match raw with
  | JNumber (Finite raw) => if (raw >= 0)%js then Some raw else None
  | JNumber _ => None
  | JString raw =>
      match parseNumber raw with
      | None => None
      | Some parsed => if (parsed < 0)%js then None else Some parsed
      end
  | _ => None
  end.

Definition normalizePatient (patient : Raw.Patient) : option Norm.Patient :=
  let id :=
    match Raw.patient_id patient with
    | JString s => Some s
    | _ => match Raw.id patient with
           | JString s => Some s
           | _ => None
           end
    end in
  if falsy id then None
  else
    let bp := parseBloodPressureReading (Raw.blood_pressure patient) in
    let temperature := parseTemperatureValue (Raw.temperature patient) in
    let age := parseAgeValue (Raw.age patient) in
    let bpScore :=
      if valid bp
      then getBloodPressureScore (default "" (systolic bp)) (default "" (diastolic bp))
      else 0 in
    let tempScore :=
      getTemperatureScore (default "" (Text.String_of_number <$> temperature)) in
    let ageScore := getAgeScore (default "" (Text.String_of_number <$> age)) in
    let hasInvalid :=
      negb (valid bp) || bool_decide (temperature = None) || bool_decide (age = None) in
    Some {| Norm.id := default "" id;
            Norm.bpScore := bpScore;
            Norm.tempScore := tempScore;
            Norm.ageScore := ageScore;
            Norm.total := bpScore + tempScore + ageScore;
            Norm.temperature := temperature;
            Norm.hasInvalid := hasInvalid |}.

(** ** The batch classifier of [fetchPatients] *)

Record AlertLists : Type := {
  highRisk : list string;
  fever : list string;
  dataQuality : list string;
  totalPatients : nat;
}.

(** The three arrays and the [Set] that the [forEach] callback mutates. *)
Record Buckets : Type := {
  b_highRisk : list string;
  b_fever : list string;
  b_dataQuality : list string;
  seen : gset string;
}.

Definition noBuckets : Buckets :=
  {| b_highRisk := []; b_fever := []; b_dataQuality := []; seen := ∅ |}.

Definition isFever (normalized : Norm.Patient) : bool :=
  match Norm.temperature normalized with
  | Some t => (t >= 99.6)%js
  | None => false
  end.

(** One call of the [forEach] callback. *)
Definition visit (b : Buckets) (entry : Raw.Patient) : Buckets :=
  match normalizePatient entry with
  | None => b
  | Some normalized =>
      if bool_decide (Norm.id normalized ∈ seen b) then b
      else
        {| seen := {[ Norm.id normalized ]} ∪ seen b;
           b_highRisk :=
             if 4 <=? Norm.total normalized
             then b_highRisk b ++ [Norm.id normalized] else b_highRisk b;
           b_fever :=
             if isFever normalized
             then b_fever b ++ [Norm.id normalized] else b_fever b;
           b_dataQuality :=
             if Norm.hasInvalid normalized
             then b_dataQuality b ++ [Norm.id normalized] else b_dataQuality b |}
  end.

Definition alertsOf (b : Buckets) : AlertLists :=
  {| highRisk := b_highRisk b;
     fever := b_fever b;
     dataQuality := b_dataQuality b;
     totalPatients := size (seen b) |}.

Definition classify (records : list Raw.Patient) : AlertLists :=
  alertsOf (fold_left visit records noBuckets).

(** What the request to [/api/patients] can come back with. *)
Inductive Json : Type :=
  | BadJson (message : string)
  | Payload (data : option (list Raw.Patient)).

Inductive Reply : Type :=
  | Rejected (message : string)
  | Replied (status : Z) (json : Json).

Record Ui : Type := {
  alerts : AlertLists;
  loadingPatients : bool;
  patientError : option string;
  submitResult : option (bool * string);
}.

Definition fetchPatients (reply : Reply) (ui : Ui) : Ui :=
  let failed message :=
    {| alerts := alerts ui; loadingPatients := false;
       patientError := Some message; submitResult := None |} in
  match reply with
  | Rejected message => failed message
  | Replied status json =>
      if negb ((200 <=? status) && (status <=? 299))
      then failed ("Request failed: " +:+ pretty status)
      else match json with
           | BadJson message => failed message
           | Payload data =>
               {| alerts := classify (default [] data);
                  loadingPatients := false;
                  patientError := None;
                  submitResult := None |}
           end
  end.


(** ** The fetch client ([lib/demomed]) *)

Definition MAX_ATTEMPTS : Z := 5.
Definition BASE_DELAY_MS : Z := 300.

Definition isRetriableStatus (status : Z) : bool :=
  (status =? 429) || (status =? 500) || (status =? 503).

(** [process.env], as far as the client reads it. *)
Record Env : Type := {
  DEMOMED_API_KEY : option string;
  NEXT_PUBLIC_DEMOMED_API_KEY : option string;
}.

Record Pagination : Type := {
  pg_page : option Z;
  pg_totalPages : option Z;
  pg_hasNext : option bool;
}.

(** [type PatientsResponse]; [data] is [None] when the field is absent or
    not an array. *)
Record PatientsResponse : Type := {
  data : option (list Raw.Patient);
  pagination : option Pagination;
}.

(** A [Response]: [text] and [json] are [None] when the corresponding
    promise rejects. *)
Record Response : Type := {
  status : Z;
  text : option string;
  json : option PatientsResponse;
}.

Definition ok (response : Response) : bool :=
  (200 <=? status response) && (status response <=? 299).

Record Url : Type := {
  u_page : Z;
  u_limit : Z;
}.

Record Request : Type := {
  url : Url;
  x_api_key : string;
}.

Inductive Error : Type :=
  | MissingApiKey
  | RequestFailed (status : Z) (body : string)
  | TransportError (message : string)
  | InvalidJson
  | ExceededMaximumRetryAttempts.

(** What [fetch] settles with. *)
Inductive Settled : Type :=
  | Responds (response : Response)
  | Fails (message : string).

(** The remote side: the answer to the request sent after [n] earlier ones. *)
Definition Server : Type := nat -> Request -> Settled.

(** Requests sent so far, and the delays waited for so far (oldest first). *)
Record World : Type := {
  requests : nat;
  waited : list Z;
}.

Definition startWorld : World := {| requests := 0; waited := [] |}.

Inductive Outcome (A : Type) : Type :=
  | Ok (a : A)
  | Throw (e : Error)
  | OutOfFuel.
Arguments Ok {A} a.
Arguments Throw {A} e.
Arguments OutOfFuel {A}.

(** Computations that read and change the world and may throw. *)
Definition Task (A : Type) : Type := World -> Outcome A * World.

Definition pure {A} (a : A) : Task A := fun w => (Ok a, w).
Definition throw {A} (e : Error) : Task A := fun w => (Throw e, w).
Definition await {A B} (t : Task A) (k : A -> Task B) : Task B :=
  fun w =>
    match t w with
    | (Ok a, w') => k a w'
    | (Throw e, w') => (Throw e, w')
    | (OutOfFuel, w') => (OutOfFuel, w')
    end.

Notation "'do!' x <- t ; k" := (await t (fun x => k))
  (at level 10, x name, t at level 100, k at level 200).

Definition wait (ms : Z) : Task unit :=
  fun w => (Ok tt, {| requests := requests w; waited := waited w ++ [ms] |}).

Definition send (server : Server) (request : Request) : World -> Settled * World :=
  fun w => (server (requests w) request,
            {| requests := S (requests w); waited := waited w |}).

Definition backoff (attempt : Z) : Z :=
  Z.min (BASE_DELAY_MS * 2 ^ (attempt - 1)) 4000.

Definition getApiKey (env : Env) : Outcome string :=
  let key :=
    match DEMOMED_API_KEY env with
    | Some k => Some k
    | None => NEXT_PUBLIC_DEMOMED_API_KEY env
    end in
  if falsy key then Throw MissingApiKey else Ok (default "" key).

Definition buildPatientsUrl (page limit : Z) : Url :=
  {| u_page := page; u_limit := limit |}.

(** The [while (attempt < MAX_ATTEMPTS)] loop of [fetchWithRetry]; [attempt]
    is the value of the variable on entry to the test. *)
Fixpoint retryLoop (fuel : nat) (server : Server) (request : Request)
    (attempt : Z) : Task Response :=
  match fuel with
  | O => fun w => (OutOfFuel, w)
  | S fuel' =>
      if attempt <? MAX_ATTEMPTS then
        let attempt := attempt + 1 in
        (* the [catch] clause *)
        let caught (error : Error) : Task Response :=
          if MAX_ATTEMPTS <=? attempt then throw error
          else do! _ <- wait (backoff attempt); retryLoop fuel' server request attempt in
        fun w =>
          match send server request w with
          | (Responds response, w') =>
              if ok response then pure response w'
              else if isRetriableStatus (status response) && (attempt <? MAX_ATTEMPTS)
              then (do! _ <- wait (backoff attempt);
                    retryLoop fuel' server request attempt) w'
              else
                let body := default "" (text response) in
                (* thrown inside the [try] block *)
                caught (RequestFailed (status response) body) w'
          | (Fails message, w') => caught (TransportError message) w'
          end
      else throw ExceededMaximumRetryAttempts
  end.

Definition fetchWithRetry (server : Server) (url : Url) (apiKey : string)
  : Task Response :=
  retryLoop (S (Z.to_nat MAX_ATTEMPTS)) server
            {| url := url; x_api_key := apiKey |} 0.

(** The variables of the paging loop. *)
Record Paging : Type := {
  patients : list Raw.Patient;
  page : Z;
  pagesFetched : Z;
  hasNext : bool;
  totalPages : option Z;
}.

(** The loop body after the payload has been read. *)
Definition advance (maxPages : Z) (st : Paging) (payload : PatientsResponse) : Paging :=
  let pageData := default [] (data payload) in
  let totalPages :=
    match pagination payload ≫= pg_totalPages with
    | Some t => Some t
    | None => totalPages st
    end in
  let pageNumber := default (page st) (pagination payload ≫= pg_page) in
  let hasNextFlag := pagination payload ≫= pg_hasNext in
  let inferredHasNext :=
    match hasNextFlag with
    | Some flag => flag
    | None =>
        match totalPages with
        | Some t => pageNumber <? t
        | None => (0 <? Z.of_nat (length pageData)) && (page st <? maxPages)
        end
    end in
  {| patients := patients st ++ pageData;
     page := page st + 1;
     pagesFetched := pagesFetched st + 1;
     hasNext := inferredHasNext;
     totalPages := totalPages |}.

Fixpoint pageLoop (fuel : nat) (server : Server) (apiKey : string)
    (limit maxPages : Z) (st : Paging) : Task Paging :=
  match fuel with
  | O => fun w => (OutOfFuel, w)
  | S fuel' =>
      if hasNext st && (page st <=? maxPages) then
        do! response <- fetchWithRetry server (buildPatientsUrl (page st) limit) apiKey;
        match json response with
        | None => throw InvalidJson
        | Some payload =>
            pageLoop fuel' server apiKey limit maxPages (advance maxPages st payload)
        end
      else pure st
  end.

Record FetchResult : Type := {
  r_patients : list Raw.Patient;
  r_pagesFetched : Z;
  r_totalPages : Z;
  r_limit : Z;
}.

Definition firstPage : Paging :=
  {| patients := []; page := 1; pagesFetched := 0; hasNext := true; totalPages := None |}.

Definition fetchAllPatients (env : Env) (server : Server) (limit maxPages : Z)
  : Task FetchResult :=
  match getApiKey env with
  | Ok apiKey =>
      do! st <- pageLoop (S (Z.to_nat maxPages)) server apiKey limit maxPages firstPage;
      pure {| r_patients := patients st;
              r_pagesFetched := pagesFetched st;
              r_totalPages := default (pagesFetched st) (totalPages st);
              r_limit := limit |}
  | Throw e => throw e
  | OutOfFuel => fun w => (OutOfFuel, w)
  end.

(** ** Vocabulary of the statements *)

(** [Number.isInteger] on a finite number. *)
Definition isInteger (q : Q) : bool := Qeq_bool (inject_Z (Qfloor q)) q.

(** The bands of [getBloodPressureScore] end at 129, 139 and 89 and the
    next ones start at 130, 140 and 90: a reading strictly in between is in
    no band.  (Below 80 the diastolic test is [< 80], which leaves no gap.) *)
Definition systolicInGap (s : Q) : bool :=
  ((s > 129)%js && (s < 130)%js) || ((s > 139)%js && (s < 140)%js).

Definition diastolicInGap (d : Q) : bool := (d > 89)%js && (d < 90)%js.

(** The id under which a raw record is classified, if it has a usable one. *)
Definition resolvedId (r : Raw.Patient) : option string :=
  Norm.id <$> normalizePatient r.

Definition resolvedIds (records : list Raw.Patient) : list string :=
  omap resolvedId records.

(** The first record of the batch classified under [i]. *)
Definition firstOf (i : string) (records : list Raw.Patient) : option Raw.Patient :=
  head (filter (λ r, resolvedId r = Some i) records).

Definition isHighRisk (n : Norm.Patient) : bool := 4 <=? Norm.total n.

Definition demo (pid : string) (bp temp ag : jsval) : Raw.Patient :=
  {| Raw.patient_id := JString pid; Raw.id := JUndefined;
     Raw.blood_pressure := bp; Raw.temperature := temp; Raw.age := ag |}.

Definition firstRecord : Raw.Patient :=
  demo "DEMO001" (JString "150/95") (JNumber (Finite 100.0)) (JNumber (Finite 70)).
Definition laterDuplicate : Raw.Patient :=
  demo "DEMO001" (JString "bad/data") (JString "98.6") (JString "30").
Definition lowFeverPatient : Raw.Patient :=
  demo "DEMO002" (JString "118/76") (JNumber (Finite 100.0)) (JString "35").
Definition badPressurePatient : Raw.Patient :=
  demo "DEMO003" (JString "bad/data") (JNumber (Finite 98.6)) (JNumber (Finite 45)).
Definition gapFeverPatient : Raw.Patient :=
  demo "DEMO004" (JString "118/76") (JNumber (Finite 100.95)) (JString "35").

(** A record whose readings are spelled in ways [Number] accepts. *)
Definition writtenOddly : Raw.Patient :=
  demo "DEMO005" (JString " 1.5e2/0x5F/7 ") (JString "1012e-1") (JString " 70.0 ").

Definition afterSend (w : World) : World :=
  {| requests := S (requests w); waited := waited w |}.

Definition afterWait (ms : Z) (w : World) : World :=
  {| requests := requests w; waited := waited w ++ [ms] |}.

(** The delays of attempts [a+1 .. a+n-1], each waited for after its attempt
    failed. *)
Definition schedule (a : Z) (n : nat) : list Z :=
  map (fun k => Z.min (300 * 2 ^ (a + Z.of_nat k - 1)) 4000) (seq 1 (n - 1)).

Definition patientsRequest (url : Url) (apiKey : string) : Request :=
  {| url := url; x_api_key := apiKey |}.

Definition emptyPage : Response :=
  {| status := 200; text := None;
     json := Some {| data := Some []; pagination := None |} |}.

Definition failure (code : Z) (body : string) : Response :=
  {| status := code; text := Some body; json := None |}.

(** Answers the requests in the order of the list, then stops answering. *)
Definition script (answers : list Settled) : Server :=
  fun n _ => nth n answers (Fails "connection refused").

Definition unavailableTwice : Server :=
  script [Responds (failure 503 "Service Unavailable");
          Responds (failure 503 "Service Unavailable");
          Responds emptyPage].

(** Not found at first, fine at the second request. *)
Definition notFoundOnce : Server :=
  script [Responds (failure 404 "Not Found"); Responds emptyPage].

Definition pageData (p : PatientsResponse) : list Raw.Patient :=
  default [] (data p).

(** The total number of pages known after a response: the one it reports,
    else the one known before. *)
Definition reportedTotal (known : option Z) (p : PatientsResponse) : option Z :=
  match pagination p ≫= pg_totalPages with
  | Some t => Some t
  | None => known
  end.

Definition knownTotal (known : option Z) (pages : list PatientsResponse) : option Z :=
  fold_left reportedTotal pages known.

(** The rule for going on after a page, in the order of its three cases:
    the response's own flag; else the page number (the one the response
    reports, else the counter) against the total known so far; else a
    non-empty page below the ceiling. *)
Definition nextPageWanted (maxPages counter : Z) (known : option Z)
    (p : PatientsResponse) : bool :=
  match pagination p ≫= pg_hasNext with
  | Some flag => flag
  | None =>
      match reportedTotal known p with
      | Some total => default counter (pagination p ≫= pg_page) <? total
      | None =>
          match pageData p with
          | [] => false
          | _ :: _ => counter <? maxPages
          end
      end
  end.

(** [pages] are the payloads of a run of the loop from [st] to [st']. *)
Definition Fetched (server : Server) (apiKey : string) (limit maxPages : Z)
    (st : Paging) (pages : list PatientsResponse) (st' : Paging) : Prop :=
  pagesFetched st' = pagesFetched st + Z.of_nat (length pages) ∧
  patients st' = patients st ++ concat (pageData <$> pages) ∧
  totalPages st' = knownTotal (totalPages st) pages ∧
  ((0 < length pages)%nat ↔ hasNext st = true ∧ page st <= maxPages) ∧
  ∀ (k : nat) (p : PatientsResponse), pages !! k = Some p →
    (∃ (m : nat) (response : Response),
        server m (patientsRequest (buildPatientsUrl (page st + Z.of_nat k) limit) apiKey)
          = Responds response
        ∧ ok response = true ∧ json response = Some p) ∧
    ((S k < length pages)%nat ↔
       nextPageWanted maxPages (page st + Z.of_nat k)
         (knownTotal (totalPages st) (take k pages)) p = true
       ∧ page st + Z.of_nat k + 1 <= maxPages).

(** The pages of a run are decided by [rule]: page [k+2] is requested
    exactly when the rule says so after page [k+1] and the ceiling allows
    it; every page is the payload of a successful answer to the request for
    its page number. *)
Definition PagesDecidedBy
    (rule : Z -> list PatientsResponse -> PatientsResponse -> bool)
    (server : Server) (apiKey : string) (limit maxPages : Z)
    (pages : list PatientsResponse) : Prop :=
  ∀ (k : nat) (p : PatientsResponse), pages !! k = Some p →
    (∃ (m : nat) (response : Response),
        server m (patientsRequest (buildPatientsUrl (1 + Z.of_nat k) limit) apiKey)
          = Responds response
        ∧ ok response = true ∧ json response = Some p) ∧
    ((S k < length pages)%nat ↔
       rule (1 + Z.of_nat k) (take k pages) p = true ∧ 1 + Z.of_nat k + 1 <= maxPages).

(** What a run of [fetchAllPatients] amounts to when its pages are decided
    by [rule]. *)
Definition RunDecidedBy
    (rule : Z -> Z -> list PatientsResponse -> PatientsResponse -> bool)
    (env : Env) (server : Server) (limit maxPages : Z) (w : World) : Prop :=
  match fetchAllPatients env server limit maxPages w with
  | (Ok r, _) =>
      ∃ (apiKey : string) (pages : list PatientsResponse),
        getApiKey env = Ok apiKey ∧
        r_pagesFetched r = Z.of_nat (length pages) ∧
        r_patients r = concat (pageData <$> pages) ∧
        r_totalPages r = default (Z.of_nat (length pages)) (knownTotal None pages) ∧
        ((0 < length pages)%nat ↔ 1 <= maxPages) ∧
        PagesDecidedBy (rule maxPages) server apiKey limit maxPages pages
  | (Throw _, _) => True
  | (OutOfFuel, _) => False
  end.

(** The rule of the code: the total that counts is the latest one reported
    by this or an earlier response. *)
Definition ruleOfTheCode (maxPages counter : Z) (earlier : list PatientsResponse)
    (p : PatientsResponse) : bool :=
  nextPageWanted maxPages counter (knownTotal None earlier) p.

(** The rule as the specification words it: the counter against the total
    reported by the response at hand. *)
Definition ruleAsStated (maxPages counter : Z) (earlier : list PatientsResponse)
    (p : PatientsResponse) : bool :=
  match pagination p ≫= pg_hasNext with
  | Some flag => flag
  | None =>
      match pagination p ≫= pg_totalPages with
      | Some total => counter <? total
      | None =>
          match pageData p with
          | [] => false
          | _ :: _ => counter <? maxPages
          end
      end
  end.

Definition keyed : Env :=
  {| DEMOMED_API_KEY := Some "key"; NEXT_PUBLIC_DEMOMED_API_KEY := None |}.

Definition page1 : PatientsResponse :=
  {| data := Some [firstRecord];
     pagination := Some {| pg_page := None; pg_totalPages := Some 3; pg_hasNext := None |} |}.
Definition page2 : PatientsResponse :=
  {| data := Some []; pagination := None |}.
Definition page3 : PatientsResponse :=
  {| data := Some [];
     pagination := Some {| pg_page := None; pg_totalPages := None; pg_hasNext := Some false |} |}.

Definition answer (p : PatientsResponse) : Settled :=
  Responds {| status := 200; text := None; json := Some p |}.

(** Reports the total on the first page only. *)
Definition totalOnlyOnce : Server :=
  fun _ request =>
    let n := u_page (url request) in
    if n =? 1 then answer page1
    else if n =? 2 then answer page2
    else if n =? 3 then answer page3
    else Fails "no such page".

(** Every answer is a success whose pagination says [hasNext = true]. *)
Definition AlwaysHasNext (server : Server) : Prop :=
  ∀ (m : nat) (request : Request),
    ∃ (response : Response) (payload : PatientsResponse),
      server m request = Responds response ∧ ok response = true ∧
      json response = Some payload ∧ pagination payload ≫= pg_hasNext = Some true.

(** A full page with [hasNext = true], whatever is asked. *)
Definition alwaysMore : Server :=
  fun _ _ =>
    answer {| data := Some [firstRecord];
              pagination := Some {| pg_page := None; pg_totalPages := None;
                                    pg_hasNext := Some true |} |}.

(** ** The risk calculator form ([calculateScores]) *)

Module Inputs.
Record t : Type := {
  systolic : string;
  diastolic : string;
  temperature : string;
  age : string;
}.
End Inputs.

Module ScoreBreakdown.
Record t : Type := {
  bloodPressure : Z;
  temperature : Z;
  age : Z;
  total : Z;
}.
End ScoreBreakdown.

Definition calculateScores (inputs : Inputs.t) : ScoreBreakdown.t :=
  let bloodPressure :=
    getBloodPressureScore (Inputs.systolic inputs) (Inputs.diastolic inputs) in
  let temperature := getTemperatureScore (Inputs.temperature inputs) in
  let age := getAgeScore (Inputs.age inputs) in
  {| ScoreBreakdown.bloodPressure := bloodPressure;
     ScoreBreakdown.temperature := temperature;
     ScoreBreakdown.age := age;
     ScoreBreakdown.total := bloodPressure + temperature + age |}.

(** ** The route handlers ([api/patients], [api/submit-assessment]) *)

(** [Math.trunc] on a finite number. *)
Definition Math_trunc (q : Q) : Z :=
  if Qle_bool 0 q then Qfloor q else Qceiling q.

(** [Number(raw)] for [raw : string | null]: [Number(null)] is [0]. *)
Definition NumberOfParam (raw : option string) : jsnum :=
  match raw with
  | Some s => Text.Number s
  | None => Finite 0
  end.

Definition clampLimit (raw : option string) : Z :=
  match NumberOfParam raw with
  | Finite parsed => Z.min (Z.max (Math_trunc parsed) 1) 20
  | _ => 5
  end.

Definition parseMaxPages (raw : option string) : Z :=
  match NumberOfParam raw with
  | Finite parsed => Z.max (Math_trunc parsed) 1
  | _ => 10
  end.

(** [searchParams.get("limit")] and [searchParams.get("maxPages")]. *)
Record SearchParams : Type := {
  sp_limit : option string;
  sp_maxPages : option string;
}.

(** What [GET] answers: the JSON body with status 200, or the error body
    with its status. *)
Inductive RouteReply : Type :=
  | PatientsJson (data : list Raw.Patient) (count : Z)
      (pagesFetched totalPages limit : Z)
  | ErrorJson (status : Z) (error : string) (cause : Error).

Definition GET (env : Env) (server : Server) (searchParams : SearchParams)
  : Task RouteReply :=
  fun w =>
    let limit := clampLimit (sp_limit searchParams) in
    let maxPages := parseMaxPages (sp_maxPages searchParams) in
    match fetchAllPatients env server limit maxPages w with
    | (Ok result, w') =>
        (Ok (PatientsJson (r_patients result)
               (Z.of_nat (length (r_patients result)))
               (r_pagesFetched result) (r_totalPages result) (r_limit result)), w')
    | (Throw e, w') => (Ok (ErrorJson 500 "Failed to fetch patients" e), w')
    | (OutOfFuel, w') => (OutOfFuel, w')
    end.

(** A value after [JSON.stringify] and [JSON.parse]: a number that is not
    finite is written as [null]; an [undefined] field is left out and reads
    as [undefined] again. *)
Definition throughJson (v : jsval) : jsval :=
  match v with
  | JNumber (Finite q) => JNumber (Finite q)
  | JNumber _ => JNull
  | _ => v
  end.

Definition patientThroughJson (p : Raw.Patient) : Raw.Patient :=
  {| Raw.patient_id := throughJson (Raw.patient_id p);
     Raw.id := throughJson (Raw.id p);
     Raw.blood_pressure := throughJson (Raw.blood_pressure p);
     Raw.temperature := throughJson (Raw.temperature p);
     Raw.age := throughJson (Raw.age p) |}.

(** What the page receives for the answer of [GET]. *)
Definition received (reply : RouteReply) : Reply :=
  match reply with
  | PatientsJson data _ _ _ _ => Replied 200 (Payload (Some (patientThroughJson <$> data)))
  | ErrorJson status _ _ => Replied status (Payload None)
  end.

(** The query of the page: [/api/patients?limit=20&maxPages=10]. *)
Definition pageQuery : SearchParams :=
  {| sp_limit := Some "20"; sp_maxPages := Some "10" |}.

(** The entry when [typeof entry === "string"]. *)
Definition stringEntry (entry : jsval) : option string :=
  match entry with
  | JString s => Some s
  | _ => None
  end.

Definition normalizeIds (value : option (list jsval)) : list string :=
  match value with
  | None => []
  | Some entries =>
      filter (λ id, id ≠ "") (Text.trim <$> omap stringEntry entries)
  end.

Record AssessmentPayload : Type := {
  high_risk_patients : list string;
  fever_patients : list string;
  data_quality_issues : list string;
}.

(** The body of the request to the route, [Partial<AssessmentPayload>] read
    as [unknown]: a field is [None] unless it is an array. *)
Record AssessmentBody : Type := {
  body_high_risk_patients : option (list jsval);
  body_fever_patients : option (list jsval);
  body_data_quality_issues : option (list jsval);
}.

(** The payload that [POST] hands to [submitAssessment]. *)
Definition POST_payload (body : AssessmentBody) : AssessmentPayload :=
  {| high_risk_patients := normalizeIds (body_high_risk_patients body);
     fever_patients := normalizeIds (body_fever_patients body);
     data_quality_issues := normalizeIds (body_data_quality_issues body) |}.

(** ** Submitting the alerts ([submitAlerts]) *)

Inductive SubmitJson : Type :=
  | BadSubmitJson (message : string)
  | SubmitJsonBody (message : option string).

Inductive SubmitReply : Type :=
  | SubmitRejected (message : string)
  | SubmitReplied (status : Z) (text : option string) (json : SubmitJson).

(** The body of the request: the three alert lists. *)
Definition alertsPayload (a : AlertLists) : AssessmentPayload :=
  {| high_risk_patients := highRisk a;
     fever_patients := fever a;
     data_quality_issues := dataQuality a |}.

(** The state after the click, and the bodies posted to
    [/api/submit-assessment] (none or one). *)
Definition submitAlerts (post : AssessmentPayload -> SubmitReply) (ui : Ui)
  : Ui * list AssessmentPayload :=
  let settle (result : bool * string) : Ui :=
    {| alerts := alerts ui; loadingPatients := loadingPatients ui;
       patientError := patientError ui; submitResult := Some result |} in
  if Nat.eqb (totalPatients (alerts ui)) 0
  then (settle (false, "Fetch patients before submitting."), [])
  else
    let body := alertsPayload (alerts ui) in
    let result :=
      match post body with
      | SubmitRejected message => (false, message)
      | SubmitReplied status text json =>
          if negb ((200 <=? status) && (status <=? 299)) then
            let text := default "" text in
            (false, "Submission failed (" +:+ pretty status +:+ ")"
                    +:+ (if bool_decide (text = "") then "" else ": " +:+ text))
          else match json with
               | BadSubmitJson message => (false, message)
               | SubmitJsonBody message =>
                   (true, default "Submitted successfully" message)
               end
      end in
    (settle result, [body]).

(** The alert lists as the JSON body the page posts. *)
Definition postedBody (payload : AssessmentPayload) : AssessmentBody :=
  {| body_high_risk_patients := Some (JString <$> high_risk_patients payload);
     body_fever_patients := Some (JString <$> fever_patients payload);
     body_data_quality_issues := Some (JString <$> data_quality_issues payload) |}.

(** ** Vocabulary of the further statements *)

(** The stage of each reading on its own, as the form explains the rule:
    the higher stage is the score. *)
Definition systolicStage (s : Z) : Z :=
  if 140 <=? s then 4 else if 130 <=? s then 3 else if 120 <=? s then 2 else 1.

Definition diastolicStage (d : Z) : Z :=
  if 90 <=? d then 4 else if 80 <=? d then 3 else 1.

(** A reply to the request for the patients after which [fetchPatients]
    reports an error. *)
Definition refreshFailed (reply : Reply) : bool :=
  match reply with
  | Rejected _ => true
  | Replied status json =>
      negb ((200 <=? status) && (status <=? 299))
      || match json with
         | BadJson _ => true
         | Payload _ => false
         end
  end.

(** The error of a failed attempt. *)
Definition errorOf (settled : Settled) : Error :=
  match settled with
  | Responds response => RequestFailed (status response) (default "" (text response))
  | Fails message => TransportError message
  end.

Definition succeeded (settled : Settled) : bool :=
  match settled with
  | Responds response => ok response
  | Fails _ => false
  end.

Definition total_ms (delays : list Z) : Z := fold_right Z.add 0 delays.

Definition timeoutsThenFine : Server :=
  script [Fails "ETIMEDOUT"; Fails "ETIMEDOUT"; Responds emptyPage].

Definition alwaysBusy : Server :=
  fun _ _ => Responds (failure 429 "Too Many Requests").

Definition pagesLeft (maxPages : Z) (st : Paging) : Z :=
  Z.max 0 (maxPages + 1 - page st).

Definition clean (cs : list ascii) : Prop :=
  match cs with
  | [] => True
  | c :: _ => Text.isWhiteSpace c = false
  end.

(** [cs] are decimal digits with the values [ds]. *)
Definition digitsOf (cs : list ascii) (ds : list N) : Prop :=
  Forall2 (fun c d => Text.digitValue 10 c = Some d) cs ds.

Definition valN (ds : list N) : N :=
  fold_left (fun acc d => (acc * 10 + d)%N) ds 0%N.

(** Where reading digits stops. *)
Definition stops (rest : list ascii) : Prop :=
  match rest with
  | [] => True
  | c :: _ => Text.digitValue 10 c = None
  end.

(** What may follow the digits of a number: nothing, or an exponent. *)
Definition exponentStart (X : list ascii) : Prop :=
  X = [] \/ exists X', X = "e"%char :: X'.

(** Text that [Number] reads as an unsigned decimal: it begins with a digit
    that is followed by nothing, a digit, a point or an exponent. *)
Definition plainStart (cs : list ascii) : Prop :=
  exists (c : ascii) (d : N) (rest : list ascii),
    cs = c :: rest /\ Text.digitValue 10 c = Some d /\
    (rest = [] \/
     exists (c' : ascii) (rest' : list ascii),
       rest = c' :: rest' /\
       ((exists d', Text.digitValue 10 c' = Some d') \/ c' = "."%char \/ c' = "e"%char)).

Definition tenTo (z : Z) : Q := (10 # 1) ^ z.

(** A number whose denominator is a power of ten. *)
Definition decimal (x : Q) : Prop :=
  exists k : nat, Zpos (Qden x) = 10 ^ Z.of_nat k.

(** The digits with their point or exponent, for [|x| = s * 10^e]. *)
Definition writtenBody (s e : Z) : string :=
  let digits := pretty (Z.to_N s) in
  let k := Z.of_nat (String.length digits) in
  let n := k + e in
  if (k <=? n) && (n <=? 21) then digits +:+ Text.zeros (n - k)
  else if (0 <? n) && (n <=? 21) then
    substring 0 (Z.to_nat n) digits +:+ "." +:+
    substring (Z.to_nat n) (Z.to_nat (k - n)) digits
  else if (-6 <? n) && (n <=? 0) then "0." +:+ Text.zeros (- n) +:+ digits
  else
    let ex := n - 1 in
    let mant :=
      if k =? 1 then digits
      else substring 0 1 digits +:+ "." +:+ substring 1 (Z.to_nat (k - 1)) digits in
    mant +:+ "e" +:+ (if ex <? 0 then "-" else "+") +:+ pretty (Z.to_N (Z.abs ex)).

(** What may follow the first digit of a written number. *)
Definition follows (rest : list ascii) : Prop :=
  rest = [] \/
  exists (c' : ascii) (rest' : list ascii),
    rest = c' :: rest' /\
    ((exists d', Text.digitValue 10 c' = Some d') \/ c' = "."%char \/ c' = "e"%char).

(** What has to hold of the characters of a written body. *)
Definition ReadsAs (cs : list ascii) (v : Q) : Prop :=
  (exists q : Q, Text.parseUnsignedDecimal cs = Some q /\ (q == v)%Q) /\
  plainStart cs /\ clean (rev cs).

(** * Properties *)

(** ** Comparisons on numbers *)

Lemma geq_true (x y : Q) : Qle_bool y x = true <-> (y <= x)%Q.
Proof. apply Qle_bool_iff. Qed.

Lemma geq_false (x y : Q) : Qle_bool y x = false <-> (x < y)%Q.
Proof.
  rewrite <- not_true_iff_false, Qle_bool_iff. split.
  - apply Qnot_le_lt.
  - apply Qlt_not_le.
Qed.

(** Decide every comparison in the goal, then let linear arithmetic sort out
    the cases that cannot happen. *)
Ltac js_compare :=
  repeat match goal with
         | |- context [Qle_bool ?a ?b] =>
             let E := fresh "E" in
             destruct (Qle_bool a b) eqn:E;
             [apply geq_true in E | apply geq_false in E]
         end;
  simpl; try reflexivity; try (exfalso; lra).

(** ** Temperature score *)

Lemma temperature_normal (temperatureValue : string) (t : Q) :
  parseNumber temperatureValue = Some t ->
  (t < 99.6)%Q -> getTemperatureScore temperatureValue = 0.
Proof.
  intros Hp Ht. unfold getTemperatureScore, HIGH_FEVER_THRESHOLD.
  rewrite Hp. js_compare.
Qed.

(** C10.  A temperature strictly between 100.9 and 101 scores 0, although
    everything from 99.6 to 100.9 scores 1 and everything from 101 on
    scores 2. *)
Theorem temperature_gap_scores_zero (temperatureValue : string) (t : Q) :
  parseNumber temperatureValue = Some t ->
  ((100.9 < t)%Q -> (t < 101)%Q -> getTemperatureScore temperatureValue = 0) /\
  ((99.6 <= t)%Q -> (t <= 100.9)%Q -> getTemperatureScore temperatureValue = 1) /\
  ((101 <= t)%Q -> getTemperatureScore temperatureValue = 2).
Proof.
  intros Hp. unfold getTemperatureScore, HIGH_FEVER_THRESHOLD. rewrite Hp.
  repeat split; intros; js_compare.
Qed.

Lemma temperature_gap_scores_zero_witness :
  getTemperatureScore "100.95" = 0 /\
  getTemperatureScore "100.9" = 1 /\
  getTemperatureScore "99.6" = 1 /\
  getTemperatureScore "101" = 2.
Proof.
  split; [| split; [| split]].
  - apply (proj1 (temperature_gap_scores_zero "100.95" 100.95 eq_refl));
      reflexivity.
  - apply (proj1 (proj2 (temperature_gap_scores_zero "100.9" 100.9 eq_refl)));
      discriminate.
  - apply (proj1 (proj2 (temperature_gap_scores_zero "99.6" 99.6 eq_refl)));
      discriminate.
  - apply (proj2 (proj2 (temperature_gap_scores_zero "101" 101 eq_refl)));
      discriminate.
Defined.

(** ** Age score *)

(** C8.  Three bands: above 65 scores 2, any other non-negative age scores
    1, a negative or unparsable age scores 0. *)
Theorem age_score_bands (ageValue : string) :
  (parseNumber ageValue = None -> getAgeScore ageValue = 0) /\
  (forall age : Q, parseNumber ageValue = Some age ->
     ((65 < age)%Q -> getAgeScore ageValue = 2) /\
     ((0 <= age)%Q -> (age <= 65)%Q -> getAgeScore ageValue = 1) /\
     ((age < 0)%Q -> getAgeScore ageValue = 0)) /\
  getAgeScore "70" = 2 /\ getAgeScore "50" = 1 /\
  getAgeScore "10" = 1 /\ getAgeScore "-5" = 0.
Proof.
  split; [| split].
  - intros Hp. unfold getAgeScore. now rewrite Hp.
  - intros age Hp. unfold getAgeScore. rewrite Hp.
    repeat split; intros; js_compare.
  - repeat split; reflexivity.
Qed.

Lemma age_score_bands_witness :
  getAgeScore "abc" = 0 /\ getAgeScore "66" = 2 /\
  getAgeScore "65" = 1 /\ getAgeScore "0" = 1 /\ getAgeScore "-0.5" = 0.
Proof.
  split; [| split; [| split; [| split]]].
  - apply (proj1 (age_score_bands "abc")). reflexivity.
  - apply (proj1 (proj1 (proj2 (age_score_bands "66")) 66%Q eq_refl)).
    reflexivity.
  - apply (proj1 (proj2 (proj1 (proj2 (age_score_bands "65")) 65%Q eq_refl)));
      discriminate.
  - apply (proj1 (proj2 (proj1 (proj2 (age_score_bands "0")) 0%Q eq_refl)));
      discriminate.
  - apply (proj2 (proj2 (proj1 (proj2 (age_score_bands "-0.5")) (-0.5)%Q eq_refl))).
    reflexivity.
Defined.

(** ** Blood-pressure score *)

Lemma isInteger_floor (q : Q) : isInteger q = true -> (q == inject_Z (Qfloor q))%Q.
Proof. unfold isInteger. intros H. apply Qeq_bool_eq in H. now symmetry. Qed.

Lemma compare_integer_below (k : Z) (q : Q) :
  isInteger q = true -> Qle_bool (inject_Z k) q = (k <=? Qfloor q).
Proof.
  intros H%isInteger_floor.
  destruct (Z.leb_spec k (Qfloor q)) as [L | L].
  - apply Qle_bool_iff. rewrite H. now rewrite <- Zle_Qle.
  - apply geq_false. rewrite H. now rewrite <- Zlt_Qlt.
Qed.

Lemma compare_integer_above (k : Z) (q : Q) :
  isInteger q = true -> Qle_bool q (inject_Z k) = (Qfloor q <=? k).
Proof.
  intros H%isInteger_floor.
  destruct (Z.leb_spec (Qfloor q) k) as [L | L].
  - apply Qle_bool_iff. rewrite H. now rewrite <- Zle_Qle.
  - apply geq_false. rewrite H. now rewrite <- Zlt_Qlt.
Qed.

(** On whole-number readings the bands leave no gap: the score is decided
    by the usual staircase. *)
Lemma blood_pressure_score_integers (sv dv : string) (s d : Q) :
  parseNumber sv = Some s -> parseNumber dv = Some d ->
  isInteger s = true -> isInteger d = true ->
  getBloodPressureScore sv dv =
    if (140 <=? Qfloor s) || (90 <=? Qfloor d) then 4
    else if (130 <=? Qfloor s) || (80 <=? Qfloor d) then 3
    else if 120 <=? Qfloor s then 2
    else 1.
Proof.
  intros Hs Hd Is Id. unfold getBloodPressureScore. rewrite Hs, Hd.
  change 140%Q with (inject_Z 140). change 139%Q with (inject_Z 139).
  change 130%Q with (inject_Z 130). change 129%Q with (inject_Z 129).
  change 120%Q with (inject_Z 120). change 90%Q with (inject_Z 90).
  change 89%Q with (inject_Z 89). change 80%Q with (inject_Z 80).
  rewrite !(compare_integer_below _ s Is), !(compare_integer_below _ d Id),
    !(compare_integer_above _ s Is), !(compare_integer_above _ d Id).
  repeat match goal with
         | |- context [?a <=? ?b] => destruct (Z.leb_spec a b); simpl; try lia
         end.
Qed.

Lemma blood_pressure_score_range (sv dv : string) :
  0 <= getBloodPressureScore sv dv <= 4.
Proof.
  unfold getBloodPressureScore.
  destruct (parseNumber sv), (parseNumber dv); try lia.
  repeat match goal with
         | |- context [if ?c then _ else _] => destruct c
         end; lia.
Qed.

Lemma systolicInGap_false (s : Q) :
  systolicInGap s = false ->
  ((s <= 129)%Q \/ (130 <= s)%Q) /\ ((s <= 139)%Q \/ (140 <= s)%Q).
Proof.
  unfold systolicInGap. js_compare; intros H; try discriminate H;
    split; (left; lra) || (right; lra).
Qed.

Lemma diastolicInGap_false (d : Q) :
  diastolicInGap d = false -> (d <= 89)%Q \/ (90 <= d)%Q.
Proof.
  unfold diastolicInGap. js_compare; intros H; try discriminate H;
    (left; lra) || (right; lra).
Qed.

Lemma systolicInGap_true (s : Q) :
  systolicInGap s = true -> (129 < s < 130)%Q \/ (139 < s < 140)%Q.
Proof.
  unfold systolicInGap. js_compare; intros H; try discriminate H;
    (left; lra) || (right; lra).
Qed.

Lemma diastolicInGap_true (d : Q) : diastolicInGap d = true -> (89 < d < 90)%Q.
Proof. unfold diastolicInGap. js_compare; intros H; try discriminate H; lra. Qed.

Lemma integer_between (k : Z) (q : Q) :
  isInteger q = true -> (inject_Z k < q)%Q -> (q < inject_Z (k + 1))%Q -> False.
Proof.
  intros H%isInteger_floor L U. rewrite H in L, U.
  rewrite <- Zlt_Qlt in L, U. lia.
Qed.

(** Outside the gaps the bands form the usual staircase, whole numbers or
    not. *)
Lemma blood_pressure_score_in_bands (sv dv : string) (s d : Q) :
  parseNumber sv = Some s -> parseNumber dv = Some d ->
  systolicInGap s = false -> diastolicInGap d = false ->
  getBloodPressureScore sv dv =
    if (s >= 140)%js || (d >= 90)%js then 4
    else if (s >= 130)%js || (d >= 80)%js then 3
    else if (s >= 120)%js then 2
    else 1.
Proof.
  intros Hs Hd Gs%systolicInGap_false Gd%diastolicInGap_false.
  unfold getBloodPressureScore. rewrite Hs, Hd.
  destruct Gs as [Gs1 Gs2]. js_compare.
Qed.

Lemma blood_pressure_score_in_gap (sv dv : string) (s d : Q) :
  parseNumber sv = Some s -> parseNumber dv = Some d ->
  (systolicInGap s = true -> diastolicInGap d = false ->
   getBloodPressureScore sv dv =
     if (d >= 90)%js then 4 else if (d >= 80)%js then 3 else 0) /\
  (diastolicInGap d = true -> systolicInGap s = false ->
   getBloodPressureScore sv dv =
     if (s >= 140)%js then 4 else if (s >= 130)%js then 3 else 0) /\
  (systolicInGap s = true -> diastolicInGap d = true ->
   getBloodPressureScore sv dv = 0).
Proof.
  intros Hs Hd. unfold getBloodPressureScore. rewrite Hs, Hd.
  split; [| split].
  - intros Gs%systolicInGap_true Gd%diastolicInGap_false. js_compare.
  - intros Gd%diastolicInGap_true [Gs1 Gs2]%systolicInGap_false. js_compare.
  - intros Gs%systolicInGap_true Gd%diastolicInGap_true. js_compare.
Qed.

(** C3, as the code has it.  The score always lies in 0..4.  It does not
    decrease when a reading increases as long as the readings compared lie
    in the bands: systolic not strictly between 129 and 130 or 139 and 140,
    diastolic not strictly between 89 and 90; every whole number lies in
    the bands.  A pair with one reading in such a gap is scored by the
    other reading alone, 4 in its highest band, 3 in the band below and 0
    otherwise, and a pair with both readings in gaps scores 0. *)
Theorem blood_pressure_score_monotone_in_bands :
  (forall sv dv : string, 0 <= getBloodPressureScore sv dv <= 4) /\
  (forall (sv dv sv' dv' : string) (s d s' d' : Q),
     parseNumber sv = Some s -> parseNumber dv = Some d ->
     parseNumber sv' = Some s' -> parseNumber dv' = Some d' ->
     systolicInGap s = false -> diastolicInGap d = false ->
     systolicInGap s' = false -> diastolicInGap d' = false ->
     (s <= s')%Q -> (d <= d')%Q ->
     getBloodPressureScore sv dv <= getBloodPressureScore sv' dv') /\
  (forall q : Q, isInteger q = true ->
     systolicInGap q = false /\ diastolicInGap q = false) /\
  (forall (sv dv : string) (s d : Q),
     parseNumber sv = Some s -> parseNumber dv = Some d ->
     (systolicInGap s = true -> diastolicInGap d = false ->
      getBloodPressureScore sv dv =
        if (d >= 90)%js then 4 else if (d >= 80)%js then 3 else 0) /\
     (diastolicInGap d = true -> systolicInGap s = false ->
      getBloodPressureScore sv dv =
        if (s >= 140)%js then 4 else if (s >= 130)%js then 3 else 0) /\
     (systolicInGap s = true -> diastolicInGap d = true ->
      getBloodPressureScore sv dv = 0)).
Proof.
  split; [apply blood_pressure_score_range |]. split; [| split].
  - intros sv dv sv' dv' s d s' d' Hs Hd Hs' Hd' Gs Gd Gs' Gd' Ls Ld.
    rewrite (blood_pressure_score_in_bands sv dv s d),
      (blood_pressure_score_in_bands sv' dv' s' d') by assumption.
    repeat match goal with
           | |- context [Qle_bool ?a ?b] =>
               let E := fresh "E" in
               destruct (Qle_bool a b) eqn:E;
               [apply geq_true in E | apply geq_false in E]
           end;
      cbn [orb]; first [lia | exfalso; lra].
  - intros q Hq. split.
    + destruct (systolicInGap q) eqn:G; [| reflexivity].
      apply systolicInGap_true in G. exfalso.
      destruct G as [[L U] | [L U]].
      * exact (integer_between 129 q Hq L U).
      * exact (integer_between 139 q Hq L U).
    + destruct (diastolicInGap q) eqn:G; [| reflexivity].
      apply diastolicInGap_true in G. exfalso.
      destruct G as [L U]. exact (integer_between 89 q Hq L U).
  - apply blood_pressure_score_in_gap.
Qed.

Lemma blood_pressure_score_monotone_in_bands_witness :
  getBloodPressureScore "125.5" "70" <= getBloodPressureScore "139" "85.5" /\
  getBloodPressureScore "139" "70" = 3 /\
  getBloodPressureScore "139.5" "70" = 0.
Proof.
  split; [| split].
  - apply (proj1 (proj2 blood_pressure_score_monotone_in_bands)
             "125.5" "70" "139" "85.5" 125.5%Q 70%Q 139%Q 85.5%Q);
      try reflexivity; discriminate.
  - reflexivity.
  - rewrite (proj1 (proj2 (proj2 (proj2 blood_pressure_score_monotone_in_bands))
                      "139.5" "70" 139.5%Q 70%Q eq_refl eq_refl));
      reflexivity.
Defined.

(** C3, as stated, fails between the bands: raising the systolic reading
    from 139 to 139.5 lowers the score from 3 to 0. *)
Lemma blood_pressure_score_not_monotone :
  ~ (forall (sv sv' dv : string) (s s' : Q),
       parseNumber sv = Some s -> parseNumber sv' = Some s' ->
       (s <= s')%Q ->
       getBloodPressureScore sv dv <= getBloodPressureScore sv' dv).
Proof.
  intros H.
  specialize (H "139" "139.5" "70" 139%Q 139.5%Q eq_refl eq_refl).
  assert (L : (139 <= 139.5)%Q) by discriminate.
  specialize (H L). vm_compute in H. apply H. reflexivity.
Qed.

(** ** The batch classifier *)

Lemma visit_no_id (b : Buckets) (r : Raw.Patient) :
  normalizePatient r = None -> visit b r = b.
Proof. intros H. unfold visit. now rewrite H. Qed.

Lemma visit_seen_before (b : Buckets) (r : Raw.Patient) (n : Norm.Patient) :
  normalizePatient r = Some n -> Norm.id n ∈ seen b -> visit b r = b.
Proof.
  intros H Hin. unfold visit. rewrite H. now rewrite bool_decide_eq_true_2.
Qed.

Lemma visit_seen (b : Buckets) (r : Raw.Patient) :
  seen (visit b r) = seen b ∪ list_to_set (resolvedIds [r]).
Proof.
  unfold visit, resolvedIds, resolvedId. simpl.
  destruct (normalizePatient r) as [n |]; simpl.
  - case_bool_decide; simpl; set_solver.
  - set_solver.
Qed.

Lemma fold_visit_seen (records : list Raw.Patient) (b : Buckets) :
  seen (fold_left visit records b) = seen b ∪ list_to_set (resolvedIds records).
Proof.
  revert b. induction records as [| r rs IH]; intros b; simpl.
  - set_solver.
  - rewrite IH, visit_seen. unfold resolvedIds. simpl.
    destruct (resolvedId r); simpl; set_solver.
Qed.

Lemma firstOf_head_same (i : string) (r : Raw.Patient) (rs : list Raw.Patient) :
  resolvedId r = Some i -> firstOf i (r :: rs) = Some r.
Proof. intros H. unfold firstOf. now rewrite filter_cons_True. Qed.

Lemma firstOf_head_other (i : string) (r : Raw.Patient) (rs : list Raw.Patient) :
  resolvedId r ≠ Some i -> firstOf i (r :: rs) = firstOf i rs.
Proof. intros H. unfold firstOf. now rewrite filter_cons_False. Qed.

Lemma firstOf_elem (i : string) (records : list Raw.Patient) (r : Raw.Patient) :
  firstOf i records = Some r -> r ∈ records ∧ resolvedId r = Some i.
Proof.
  unfold firstOf. intros H. apply head_Some_elem_of in H.
  now apply list_elem_of_filter in H as [? ?].
Qed.

(** Each of the three arrays is filled by the same pattern: the id is pushed
    when the record is new and passes the array's test. *)
Section OneBucket.

Variable bucket : Buckets -> list string.
Variable test : Norm.Patient -> bool.

Hypothesis bucket_visit : forall (b : Buckets) (r : Raw.Patient) (n : Norm.Patient),
  normalizePatient r = Some n -> Norm.id n ∉ seen b ->
  bucket (visit b r) = if test n then bucket b ++ [Norm.id n] else bucket b.

Lemma fold_visit_bucket (records : list Raw.Patient) (b : Buckets) (i : string) :
  i ∈ bucket (fold_left visit records b) ↔
  (i ∈ bucket b ∨
   ((i ∉ seen b) ∧
    ∃ r n, firstOf i records = Some r ∧ normalizePatient r = Some n ∧ test n = true)).
Proof.
  revert b. induction records as [| r rs IH]; intros b; simpl.
  - unfold firstOf. simpl. naive_solver.
  - rewrite IH. clear IH.
    destruct (normalizePatient r) as [n |] eqn:Hn.
    + destruct (decide (Norm.id n ∈ seen b)) as [Hin | Hout].
      * rewrite (visit_seen_before b r n Hn Hin).
        destruct (decide (Norm.id n = i)) as [Heq | Hne].
        -- rewrite Heq in Hin. naive_solver.
        -- rewrite firstOf_head_other; [reflexivity |].
           unfold resolvedId. rewrite Hn. simpl. congruence.
      * rewrite (bucket_visit b r n Hn Hout), visit_seen.
        unfold resolvedIds, resolvedId. simpl. rewrite Hn. simpl.
        destruct (decide (Norm.id n = i)) as [<- | Hne].
        -- rewrite firstOf_head_same by (unfold resolvedId; now rewrite Hn).
           destruct (test n) eqn:Ht.
           ++ rewrite elem_of_app, list_elem_of_singleton. split.
              ** intros [[? | _] | [Hno _]]; [now left | | set_solver].
                 right. split; [assumption |]. now exists r, n.
              ** intros [? | _]; left; [now left | now right].
           ++ split.
              ** intros [? | [Hno _]]; [now left | set_solver].
              ** intros [? | (_ & r' & n' & [= <-] & Hn' & Ht')]; [now left |].
                 congruence.
        -- rewrite firstOf_head_other
             by (unfold resolvedId; rewrite Hn; simpl; congruence).
           assert (Hb : i ∈ (if test n then bucket b ++ [Norm.id n] else bucket b)
                        <-> i ∈ bucket b).
           { destruct (test n); [| reflexivity].
             rewrite elem_of_app, list_elem_of_singleton. naive_solver. }
           rewrite Hb. set_solver.
    + rewrite (visit_no_id b r Hn).
      rewrite firstOf_head_other; [reflexivity |].
      unfold resolvedId. now rewrite Hn.
Qed.

Lemma fold_visit_bucket_NoDup (records : list Raw.Patient) (b : Buckets) :
  NoDup (bucket b) -> (forall i, i ∈ bucket b -> i ∈ seen b) ->
  NoDup (bucket (fold_left visit records b)).
Proof.
  revert b. induction records as [| r rs IH]; intros b Hnd Hsub; simpl.
  - assumption.
  - destruct (normalizePatient r) as [n |] eqn:Hn.
    + destruct (decide (Norm.id n ∈ seen b)) as [Hin | Hout].
      * rewrite (visit_seen_before b r n Hn Hin). now apply IH.
      * apply IH.
        -- rewrite (bucket_visit b r n Hn Hout). destruct (test n); [| assumption].
           apply NoDup_app. split; [assumption |]. split.
           ++ intros x Hx ->%list_elem_of_singleton. apply Hout, Hsub, Hx.
           ++ apply NoDup_singleton.
        -- intros i. rewrite (bucket_visit b r n Hn Hout), visit_seen.
           destruct (test n).
           ++ rewrite elem_of_app, list_elem_of_singleton.
              unfold resolvedIds, resolvedId. simpl. rewrite Hn. simpl.
              intros [?%Hsub | ->]; set_solver.
           ++ intros ?%Hsub. set_solver.
    + rewrite (visit_no_id b r Hn). now apply IH.
Qed.

End OneBucket.

Lemma highRisk_visit (b : Buckets) (r : Raw.Patient) (n : Norm.Patient) :
  normalizePatient r = Some n -> Norm.id n ∉ seen b ->
  b_highRisk (visit b r) =
    if isHighRisk n then b_highRisk b ++ [Norm.id n] else b_highRisk b.
Proof.
  intros H Hout. unfold visit. rewrite H.
  now rewrite bool_decide_eq_false_2.
Qed.

Lemma fever_visit (b : Buckets) (r : Raw.Patient) (n : Norm.Patient) :
  normalizePatient r = Some n -> Norm.id n ∉ seen b ->
  b_fever (visit b r) = if isFever n then b_fever b ++ [Norm.id n] else b_fever b.
Proof.
  intros H Hout. unfold visit. rewrite H.
  now rewrite bool_decide_eq_false_2.
Qed.

Lemma dataQuality_visit (b : Buckets) (r : Raw.Patient) (n : Norm.Patient) :
  normalizePatient r = Some n -> Norm.id n ∉ seen b ->
  b_dataQuality (visit b r) =
    if Norm.hasInvalid n then b_dataQuality b ++ [Norm.id n] else b_dataQuality b.
Proof.
  intros H Hout. unfold visit. rewrite H.
  now rewrite bool_decide_eq_false_2.
Qed.

Lemma classify_highRisk (records : list Raw.Patient) (i : string) :
  i ∈ highRisk (classify records) ↔
  ∃ r n, firstOf i records = Some r ∧ normalizePatient r = Some n ∧ isHighRisk n = true.
Proof.
  unfold classify. simpl.
  rewrite (fold_visit_bucket b_highRisk isHighRisk highRisk_visit). simpl.
  set_solver.
Qed.

Lemma classify_fever (records : list Raw.Patient) (i : string) :
  i ∈ fever (classify records) ↔
  ∃ r n, firstOf i records = Some r ∧ normalizePatient r = Some n ∧ isFever n = true.
Proof.
  unfold classify. simpl.
  rewrite (fold_visit_bucket b_fever isFever fever_visit). simpl.
  set_solver.
Qed.

Lemma classify_dataQuality (records : list Raw.Patient) (i : string) :
  i ∈ dataQuality (classify records) ↔
  ∃ r n, firstOf i records = Some r ∧ normalizePatient r = Some n
         ∧ Norm.hasInvalid n = true.
Proof.
  unfold classify. simpl.
  rewrite (fold_visit_bucket b_dataQuality Norm.hasInvalid dataQuality_visit). simpl.
  set_solver.
Qed.

Lemma classify_total (records : list Raw.Patient) :
  totalPatients (classify records) = length (remove_dups (resolvedIds records)).
Proof.
  unfold classify. simpl. rewrite fold_visit_seen. simpl.
  rewrite <- (size_list_to_set (C := gset string) (remove_dups (resolvedIds records)))
    by apply NoDup_remove_dups.
  f_equal. apply set_eq. intros x.
  rewrite elem_of_union, !elem_of_list_to_set, elem_of_remove_dups. set_solver.
Qed.

(** A record that [visit] leaves the buckets unchanged for can be taken out
    of the batch. *)
Lemma classify_skip (before after : list Raw.Patient) (r : Raw.Patient) :
  visit (fold_left visit before noBuckets) r = fold_left visit before noBuckets ->
  classify (before ++ r :: after) = classify (before ++ after).
Proof.
  intros H. unfold classify. rewrite !fold_left_app. simpl. now rewrite H.
Qed.

Lemma classify_ignores_unusable (before after : list Raw.Patient) (r : Raw.Patient) :
  resolvedId r = None ->
  classify (before ++ r :: after) = classify (before ++ after).
Proof.
  intros H. apply classify_skip, visit_no_id.
  unfold resolvedId in H. now destruct (normalizePatient r).
Qed.

Lemma classify_ignores_duplicate (before after : list Raw.Patient)
    (r : Raw.Patient) (i : string) :
  resolvedId r = Some i -> i ∈ resolvedIds before ->
  classify (before ++ r :: after) = classify (before ++ after).
Proof.
  intros H Hin. apply classify_skip.
  unfold resolvedId in H.
  destruct (normalizePatient r) as [n |] eqn:Hn; [| discriminate].
  injection H as <-. apply (visit_seen_before _ r n Hn).
  rewrite fold_visit_seen. simpl. set_solver.
Qed.

Lemma resolvedIds_elem (records : list Raw.Patient) (i : string) :
  i ∈ resolvedIds records ↔ ∃ r, r ∈ records ∧ resolvedId r = Some i.
Proof. unfold resolvedIds. apply list_elem_of_omap. Qed.

(** C5.  Records are deduplicated by id, the first occurrence winning: the
    number of patients seen is the number of distinct usable ids, no alert
    list repeats an id, every listed id is the id of a record of the batch,
    and a record without a usable id or with an id met earlier changes
    nothing. *)
Theorem classify_deduplicates (records : list Raw.Patient) :
  totalPatients (classify records) = length (remove_dups (resolvedIds records)) ∧
  NoDup (highRisk (classify records)) ∧
  NoDup (fever (classify records)) ∧
  NoDup (dataQuality (classify records)) ∧
  (∀ i, i ∈ highRisk (classify records) ∨ i ∈ fever (classify records)
        ∨ i ∈ dataQuality (classify records) →
        ∃ r, r ∈ records ∧ resolvedId r = Some i) ∧
  (∀ before r after, records = before ++ r :: after → resolvedId r = None →
        classify records = classify (before ++ after)) ∧
  (∀ before r after i, records = before ++ r :: after →
        resolvedId r = Some i → i ∈ resolvedIds before →
        classify records = classify (before ++ after)) ∧
  (∀ r1 r2 i, records = [r1; r2] → resolvedId r1 = Some i → resolvedId r2 = Some i →
        totalPatients (classify records) = 1%nat ∧ classify records = classify [r1]).
Proof.
  repeat apply conj.
  - apply classify_total.
  - apply (fold_visit_bucket_NoDup b_highRisk isHighRisk highRisk_visit);
      [apply NoDup_nil_2 | set_solver].
  - apply (fold_visit_bucket_NoDup b_fever isFever fever_visit);
      [apply NoDup_nil_2 | set_solver].
  - apply (fold_visit_bucket_NoDup b_dataQuality Norm.hasInvalid dataQuality_visit);
      [apply NoDup_nil_2 | set_solver].
  - intros i [H | [H | H]];
      [apply classify_highRisk in H | apply classify_fever in H
       | apply classify_dataQuality in H];
      destruct H as (r & n & Hf%firstOf_elem & _); now exists r.
  - intros before r after -> H. now apply classify_ignores_unusable.
  - intros before r after i -> H Hin. now apply classify_ignores_duplicate with i.
  - intros r1 r2 i -> H1 H2.
    assert (E : classify [r1; r2] = classify [r1]).
    { apply (classify_ignores_duplicate [r1] [] r2 i H2).
      unfold resolvedIds. simpl. rewrite H1. set_solver. }
    split; [| exact E].
    rewrite E, classify_total. unfold resolvedIds. simpl. now rewrite H1.
Qed.

Lemma classify_deduplicates_witness :
  totalPatients (classify [firstRecord; laterDuplicate]) = 1%nat ∧
  classify [firstRecord; laterDuplicate] = classify [firstRecord].
Proof.
  apply (proj2 (proj2 (proj2 (proj2 (proj2 (proj2 (proj2
           (classify_deduplicates [firstRecord; laterDuplicate])))))))
           firstRecord laterDuplicate "DEMO001");
    reflexivity.
Defined.

(** What [normalizePatient] records about the three vitals. *)
Lemma normalizePatient_fields (r : Raw.Patient) (n : Norm.Patient) :
  normalizePatient r = Some n ->
  Norm.temperature n = parseTemperatureValue (Raw.temperature r) ∧
  Norm.tempScore n =
    getTemperatureScore
      (default "" (Text.String_of_number <$> parseTemperatureValue (Raw.temperature r))) ∧
  Norm.hasInvalid n =
    negb (valid (parseBloodPressureReading (Raw.blood_pressure r)))
    || bool_decide (parseTemperatureValue (Raw.temperature r) = None)
    || bool_decide (parseAgeValue (Raw.age r) = None).
Proof.
  unfold normalizePatient.
  destruct (falsy _); [discriminate |].
  intros [= <-]. simpl. auto.
Qed.

Lemma firstOf_normalized (i : string) (records : list Raw.Patient) (r : Raw.Patient) :
  firstOf i records = Some r -> ∃ n, normalizePatient r = Some n ∧ Norm.id n = i.
Proof.
  intros [_ H]%firstOf_elem. unfold resolvedId in H.
  destruct (normalizePatient r) as [n |]; [| discriminate].
  injection H as H. now exists n.
Qed.

Lemma isFever_spec (r : Raw.Patient) (n : Norm.Patient) :
  normalizePatient r = Some n ->
  isFever n = true ↔
  ∃ t, parseTemperatureValue (Raw.temperature r) = Some t ∧ (99.6 <= t)%Q.
Proof.
  intros [Ht _]%normalizePatient_fields. unfold isFever. rewrite Ht.
  destruct (parseTemperatureValue (Raw.temperature r)) as [t |].
  - rewrite Qle_bool_iff. split.
    + intros H. now exists t.
    + now intros (t' & [= <-] & H).
  - split; [discriminate | now intros (t' & [=] & _)].
Qed.

(** C6.  An id is in the fever list exactly when the parsed temperature of
    its record is present and at least 99.6; the score plays no part: a
    temperature of 100.0 scores 1 and one of 100.95 scores 0, and both land
    in the list. *)
Theorem fever_set_uses_raw_temperature (records : list Raw.Patient) (i : string) :
  (i ∈ fever (classify records) ↔
   ∃ r t, firstOf i records = Some r
          ∧ parseTemperatureValue (Raw.temperature r) = Some t ∧ (99.6 <= t)%Q) ∧
  (∀ r, firstOf i records = Some r →
        Raw.temperature r = JNumber (Finite 100.0) →
        Norm.tempScore <$> normalizePatient r = Some 1
        ∧ i ∈ fever (classify records)) ∧
  (∀ r, firstOf i records = Some r →
        Raw.temperature r = JNumber (Finite 100.95) →
        Norm.tempScore <$> normalizePatient r = Some 0
        ∧ i ∈ fever (classify records)).
Proof.
  assert (Hiff : i ∈ fever (classify records) ↔
    ∃ r t, firstOf i records = Some r
           ∧ parseTemperatureValue (Raw.temperature r) = Some t ∧ (99.6 <= t)%Q).
  { rewrite classify_fever. split.
    - intros (r & n & Hf & Hn & Hfev).
      apply (isFever_spec r n Hn) in Hfev as (t & Ht & Hle). now exists r, t.
    - intros (r & t & Hf & Ht & Hle).
      destruct (firstOf_normalized i records r Hf) as (n & Hn & _).
      exists r, n. repeat split; try assumption.
      apply (isFever_spec r n Hn). now exists t. }
  split; [exact Hiff |].
  split; intros r Hf Ht;
    destruct (firstOf_normalized i records r Hf) as (n & Hn & _);
    destruct (normalizePatient_fields r n Hn) as (_ & Hs & _);
    rewrite Ht in Hs; rewrite Hn; simpl;
    (split; [now rewrite Hs |]);
    apply Hiff; eexists r, _; rewrite Ht; simpl;
    (split; [exact Hf | split; [reflexivity | discriminate]]).
Qed.

Lemma fever_set_uses_raw_temperature_witness :
  ("DEMO002" ∈ fever (classify [lowFeverPatient])
   ∧ Norm.tempScore <$> normalizePatient lowFeverPatient = Some 1) ∧
  ("DEMO004" ∈ fever (classify [gapFeverPatient])
   ∧ Norm.tempScore <$> normalizePatient gapFeverPatient = Some 0).
Proof.
  split.
  - destruct (proj1 (proj2 (fever_set_uses_raw_temperature [lowFeverPatient] "DEMO002"))
                lowFeverPatient eq_refl eq_refl) as [Hs Hin].
    split; [exact Hin | exact Hs].
  - destruct (proj2 (proj2 (fever_set_uses_raw_temperature [gapFeverPatient] "DEMO004"))
                gapFeverPatient eq_refl eq_refl) as [Hs Hin].
    split; [exact Hin | exact Hs].
Defined.

(** C7.  An id is in the data-quality list exactly when the blood pressure,
    the temperature or the age of its record failed to parse; a blood
    pressure of "bad/data" is enough whatever the other two are. *)
Theorem data_quality_set (records : list Raw.Patient) (i : string) :
  (i ∈ dataQuality (classify records) ↔
   ∃ r, firstOf i records = Some r ∧
        (valid (parseBloodPressureReading (Raw.blood_pressure r)) = false
         ∨ parseTemperatureValue (Raw.temperature r) = None
         ∨ parseAgeValue (Raw.age r) = None)) ∧
  (∀ r, firstOf i records = Some r → Raw.blood_pressure r = JString "bad/data" →
        valid (parseBloodPressureReading (Raw.blood_pressure r)) = false
        ∧ i ∈ dataQuality (classify records)).
Proof.
  assert (Hiff : i ∈ dataQuality (classify records) ↔
    ∃ r, firstOf i records = Some r ∧
         (valid (parseBloodPressureReading (Raw.blood_pressure r)) = false
          ∨ parseTemperatureValue (Raw.temperature r) = None
          ∨ parseAgeValue (Raw.age r) = None)).
  { rewrite classify_dataQuality. split.
    - intros (r & n & Hf & Hn & Hinv). exists r. split; [exact Hf |].
      destruct (normalizePatient_fields r n Hn) as (_ & _ & Hi).
      rewrite Hi in Hinv.
      apply orb_true_iff in Hinv as [Hinv | Hinv];
        [apply orb_true_iff in Hinv as [Hinv | Hinv] |].
      + left. now apply negb_true_iff.
      + right; left. now apply bool_decide_eq_true in Hinv.
      + right; right. now apply bool_decide_eq_true in Hinv.
    - intros (r & Hf & Hbad).
      destruct (firstOf_normalized i records r Hf) as (n & Hn & _).
      exists r, n. repeat split; try assumption.
      destruct (normalizePatient_fields r n Hn) as (_ & _ & Hi).
      rewrite Hi. destruct Hbad as [-> | [-> | ->]]; simpl.
      + reflexivity.
      + now rewrite orb_true_r.
      + now rewrite orb_true_r. }
  split; [exact Hiff |].
  intros r Hf Hbp.
  assert (Hv : valid (parseBloodPressureReading (Raw.blood_pressure r)) = false)
    by now rewrite Hbp.
  split; [exact Hv |]. apply Hiff. exists r. auto.
Qed.

Lemma data_quality_set_witness :
  "DEMO003" ∈ dataQuality (classify [badPressurePatient]).
Proof.
  exact (proj2 (proj2 (data_quality_set [badPressurePatient] "DEMO003")
                  badPressurePatient eq_refl eq_refl)).
Defined.

(** ** The retry loop *)

(** One turn of the loop.  Whatever the status of a failed response, the
    thrown error lands in the [catch] clause, so the turn ends the same way
    for every status that is not a success. *)
Lemma retryLoop_turn (fuel : nat) (server : Server) (request : Request)
    (attempt : Z) (w : World) :
  attempt < MAX_ATTEMPTS ->
  retryLoop (S fuel) server request attempt w =
    match server (requests w) request with
    | Responds response =>
        if ok response then (Ok response, afterSend w)
        else if attempt + 1 <? MAX_ATTEMPTS
        then retryLoop fuel server request (attempt + 1)
               (afterWait (backoff (attempt + 1)) (afterSend w))
        else (Throw (RequestFailed (status response) (default "" (text response))),
              afterSend w)
    | Fails message =>
        if attempt + 1 <? MAX_ATTEMPTS
        then retryLoop fuel server request (attempt + 1)
               (afterWait (backoff (attempt + 1)) (afterSend w))
        else (Throw (TransportError message), afterSend w)
    end.
Proof.
  intros Hlt. cbn [retryLoop].
  destruct (Z.ltb_spec attempt MAX_ATTEMPTS) as [_ | ?]; [| lia].
  unfold send. fold (afterSend w).
  destruct (server (requests w) request) as [response | message].
  - destruct (ok response); [reflexivity |].
    destruct (Z.ltb_spec (attempt + 1) MAX_ATTEMPTS) as [L | L].
    + destruct (Z.leb_spec MAX_ATTEMPTS (attempt + 1)); [lia |].
      now destruct (isRetriableStatus (status response)).
    + destruct (Z.leb_spec MAX_ATTEMPTS (attempt + 1)); [| lia].
      now rewrite andb_false_r.
  - destruct (Z.ltb_spec (attempt + 1) MAX_ATTEMPTS) as [L | L].
    + destruct (Z.leb_spec MAX_ATTEMPTS (attempt + 1)); [lia | reflexivity].
    + destruct (Z.leb_spec MAX_ATTEMPTS (attempt + 1)); [reflexivity | lia].
Qed.

Lemma retryLoop_exhausted (fuel : nat) (server : Server) (request : Request)
    (attempt : Z) (w : World) :
  MAX_ATTEMPTS <= attempt ->
  retryLoop (S fuel) server request attempt w = (Throw ExceededMaximumRetryAttempts, w).
Proof.
  intros Hge. cbn [retryLoop].
  destruct (Z.ltb_spec attempt MAX_ATTEMPTS); [lia | reflexivity].
Qed.

Lemma schedule_next (a : Z) (n : nat) :
  (1 <= n)%nat ->
  Z.min (300 * 2 ^ (a + 1 - 1)) 4000 :: schedule (a + 1) n = schedule a (S n).
Proof.
  intros Hn. unfold schedule.
  replace (S n - 1)%nat with (S (n - 1)) by lia.
  cbn [seq map]. f_equal.
  rewrite <- (seq_shift (n - 1) 1), map_map. apply map_ext.
  intros k. do 3 f_equal. lia.
Qed.

(** From any point of the loop, with enough fuel: the loop ends, sends [n]
    further requests without passing the fifth attempt, and waits exactly
    for the delays of the schedule. *)
Lemma retryLoop_schedule (server : Server) (request : Request) (fuel : nat) :
  forall (attempt : Z) (w : World),
    0 <= attempt <= MAX_ATTEMPTS ->
    (Z.to_nat (MAX_ATTEMPTS - attempt) < fuel)%nat ->
    exists n : nat,
      Z.of_nat n <= MAX_ATTEMPTS - attempt /\
      (attempt < MAX_ATTEMPTS -> (1 <= n)%nat) /\
      fst (retryLoop fuel server request attempt w) <> OutOfFuel /\
      requests (snd (retryLoop fuel server request attempt w)) = (requests w + n)%nat /\
      waited (snd (retryLoop fuel server request attempt w)) =
        waited w ++ schedule attempt n.
Proof.
  unfold MAX_ATTEMPTS.
  induction fuel as [| fuel IH]; intros attempt w Ha Hfuel; [lia |].
  destruct (Z.eq_dec attempt 5) as [-> | Hne].
  - exists 0%nat. rewrite retryLoop_exhausted by (unfold MAX_ATTEMPTS; lia).
    simpl. rewrite app_nil_r. repeat split; try lia. discriminate.
  - assert (Hlt : attempt < 5) by lia.
    rewrite retryLoop_turn by exact Hlt. unfold MAX_ATTEMPTS.
    assert (Hdone : forall o : Outcome Response, o <> OutOfFuel ->
              exists n : nat,
                Z.of_nat n <= 5 - attempt /\ (attempt < 5 -> (1 <= n)%nat) /\
                fst (o, afterSend w) <> OutOfFuel /\
                requests (snd (o, afterSend w)) = (requests w + n)%nat /\
                waited (snd (o, afterSend w)) = waited w ++ schedule attempt n).
    { intros o Ho. exists 1%nat. simpl. rewrite app_nil_r.
      repeat split; try lia. exact Ho. }
    assert (Hretry : attempt + 1 < 5 ->
              exists n : nat,
                Z.of_nat n <= 5 - attempt /\ (attempt < 5 -> (1 <= n)%nat) /\
                fst (retryLoop fuel server request (attempt + 1)
                       (afterWait (backoff (attempt + 1)) (afterSend w))) <> OutOfFuel /\
                requests (snd (retryLoop fuel server request (attempt + 1)
                       (afterWait (backoff (attempt + 1)) (afterSend w))))
                  = (requests w + n)%nat /\
                waited (snd (retryLoop fuel server request (attempt + 1)
                       (afterWait (backoff (attempt + 1)) (afterSend w))))
                  = waited w ++ schedule attempt n).
    { intros Hnext.
      destruct (IH (attempt + 1)
                  (afterWait (backoff (attempt + 1)) (afterSend w)))
        as (n & Hn & Hpos & Hfuel' & Hreq & Hwait); [lia | lia |].
      exists (S n). repeat split; try lia.
      - exact Hfuel'.
      - rewrite Hreq. simpl. lia.
      - rewrite Hwait. simpl. rewrite <- app_assoc. simpl.
        unfold backoff, BASE_DELAY_MS. rewrite schedule_next; [reflexivity |].
        apply Hpos. lia. }
    destruct (server (requests w) request) as [response | message].
    + destruct (ok response); [apply Hdone; discriminate |].
      destruct (Z.ltb_spec (attempt + 1) 5); [now apply Hretry |].
      apply Hdone. discriminate.
    + destruct (Z.ltb_spec (attempt + 1) 5); [now apply Hretry |].
      apply Hdone. discriminate.
Qed.

Lemma fetchWithRetry_unfold (server : Server) (url : Url) (apiKey : string) :
  fetchWithRetry server url apiKey =
  retryLoop 6 server (patientsRequest url apiKey) 0.
Proof. reflexivity. Qed.

Lemma status_not_ok (response : Response) :
  status response < 200 \/ 299 < status response -> ok response = false.
Proof.
  intros H. unfold ok.
  destruct (Z.leb_spec 200 (status response)); [| reflexivity].
  destruct (Z.leb_spec (status response) 299); [lia | reflexivity].
Qed.

(** Unfold one turn of the loop; take the branch in which attempts remain. *)
Ltac turn := rewrite retryLoop_turn by (unfold MAX_ATTEMPTS; lia).
Ltac again :=
  match goal with
  | |- context [?a <? MAX_ATTEMPTS] =>
      replace (a <? MAX_ATTEMPTS) with true
        by (symmetry; apply Z.ltb_lt; unfold MAX_ATTEMPTS; lia)
  end;
  cbv iota.

(** A call makes between one and five attempts, never runs out of fuel, and
    waits after each failed attempt but the last. *)
Lemma fetchWithRetry_schedule (server : Server) (url : Url) (apiKey : string)
    (w : World) :
  exists n : nat,
    (1 <= n <= 5)%nat /\
    fst (fetchWithRetry server url apiKey w) <> OutOfFuel /\
    requests (snd (fetchWithRetry server url apiKey w)) = (requests w + n)%nat /\
    waited (snd (fetchWithRetry server url apiKey w)) =
      waited w ++ map (fun k => Z.min (300 * 2 ^ (Z.of_nat k - 1)) 4000)
                      (seq 1 (n - 1)).
Proof.
  rewrite fetchWithRetry_unfold.
  destruct (retryLoop_schedule server (patientsRequest url apiKey) 6 0 w)
    as (n & Hn & Hpos & Hfuel & Hreq & Hwait).
  - unfold MAX_ATTEMPTS. lia.
  - unfold MAX_ATTEMPTS. simpl. lia.
  - exists n. unfold MAX_ATTEMPTS in *. repeat split; try lia; assumption.
Qed.

(** C4.  The delay waited for after attempt [k] failed, before attempt
    [k+1], is [min (300 * 2^(k-1)) 4000], nothing else is waited for and
    nothing is added to it.  With 503, 503 and then a success the call
    returns the third response after waiting 300 and 600. *)
Theorem backoff_is_capped_exponential (server : Server) (url : Url)
    (apiKey : string) (w : World) :
  (exists n : nat,
     (1 <= n <= 5)%nat /\
     fst (fetchWithRetry server url apiKey w) <> OutOfFuel /\
     requests (snd (fetchWithRetry server url apiKey w)) = (requests w + n)%nat /\
     waited (snd (fetchWithRetry server url apiKey w)) =
       waited w ++ map (fun k => Z.min (300 * 2 ^ (Z.of_nat k - 1)) 4000)
                       (seq 1 (n - 1))) /\
  (forall r1 r2 r3 : Response,
     server (requests w) (patientsRequest url apiKey) = Responds r1 ->
     status r1 = 503 ->
     server (S (requests w)) (patientsRequest url apiKey) = Responds r2 ->
     status r2 = 503 ->
     server (S (S (requests w))) (patientsRequest url apiKey) = Responds r3 ->
     ok r3 = true ->
     fetchWithRetry server url apiKey w =
       (Ok r3, {| requests := requests w + 3; waited := waited w ++ [300; 600] |})).
Proof.
  split; [apply fetchWithRetry_schedule |].
  intros r1 r2 r3 H1 S1 H2 S2 H3 Hok. rewrite fetchWithRetry_unfold.
  turn. rewrite H1, (status_not_ok r1) by lia. again.
  turn. cbn [afterSend afterWait requests].
  rewrite H2, (status_not_ok r2) by lia. again.
  turn. cbn [afterSend afterWait requests waited].
  rewrite H3, Hok. unfold afterSend, afterWait. cbn [requests waited].
  rewrite <- app_assoc. do 2 f_equal. lia.
Qed.

Lemma backoff_is_capped_exponential_witness :
  fetchWithRetry unavailableTwice (buildPatientsUrl 1 5) "key" startWorld =
    (Ok emptyPage, {| requests := 3; waited := [300; 600] |}).
Proof.
  exact (proj2 (backoff_is_capped_exponential unavailableTwice
                  (buildPatientsUrl 1 5) "key" startWorld)
               (failure 503 "Service Unavailable")
               (failure 503 "Service Unavailable")
               emptyPage eq_refl eq_refl eq_refl eq_refl eq_refl eq_refl).
Defined.

(** *** What holds of the retry policy *)

(** Never more than five attempts, and five failures with status 500 end in
    the error built from the fifth response. *)
Lemma fetchWithRetry_five_attempts (server : Server) (url : Url)
    (apiKey : string) (w : World) :
  (requests w < requests (snd (fetchWithRetry server url apiKey w)) <= requests w + 5)%nat.
Proof.
  destruct (fetchWithRetry_schedule server url apiKey w)
    as (n & Hn & _ & Hreq & _).
  rewrite Hreq. lia.
Qed.

Lemma fetchWithRetry_five_failures (server : Server) (url : Url)
    (apiKey : string) (w : World) (body : string) :
  (forall k : nat, (k < 5)%nat ->
     server (requests w + k)%nat (patientsRequest url apiKey)
       = Responds (failure 500 body)) ->
  fst (fetchWithRetry server url apiKey w) = Throw (RequestFailed 500 body) /\
  requests (snd (fetchWithRetry server url apiKey w)) = (requests w + 5)%nat.
Proof.
  intros H. rewrite fetchWithRetry_unfold.
  pose proof (H 0%nat ltac:(lia)) as H0. rewrite Nat.add_0_r in H0.
  pose proof (H 1%nat ltac:(lia)) as H1. rewrite Nat.add_1_r in H1.
  pose proof (H 2%nat ltac:(lia)) as H2.
  replace (requests w + 2)%nat with (S (S (requests w))) in H2 by lia.
  pose proof (H 3%nat ltac:(lia)) as H3.
  replace (requests w + 3)%nat with (S (S (S (requests w)))) in H3 by lia.
  pose proof (H 4%nat ltac:(lia)) as H4.
  replace (requests w + 4)%nat with (S (S (S (S (requests w))))) in H4 by lia.
  assert (Hbad : ok (failure 500 body) = false) by reflexivity.
  turn. rewrite H0, Hbad. again.
  turn. cbn [afterSend afterWait requests]. rewrite H1, Hbad. again.
  turn. cbn [afterSend afterWait requests]. rewrite H2, Hbad. again.
  turn. cbn [afterSend afterWait requests]. rewrite H3, Hbad. again.
  turn. cbn [afterSend afterWait requests]. rewrite H4, Hbad.
  split; [reflexivity | simpl; lia].
Qed.

(** C1, where the code departs from it: a 404 is not in the retriable set,
    yet the error thrown for it inside the [try] block is caught by the same
    [catch] clause that handles transport errors, so the request is sent
    again after the first delay and the call succeeds. *)
Theorem not_found_is_retried :
  isRetriableStatus 404 = false /\
  fetchWithRetry notFoundOnce (buildPatientsUrl 1 5) "key" startWorld =
    (Ok emptyPage, {| requests := 2; waited := [300] |}).
Proof. split; reflexivity. Qed.

(** ** The paging loop *)

Lemma fetchWithRetry_first_ok (server : Server) (url : Url) (apiKey : string)
    (w : World) (response : Response) :
  server (requests w) (patientsRequest url apiKey) = Responds response ->
  ok response = true ->
  fetchWithRetry server url apiKey w = (Ok response, afterSend w).
Proof.
  intros H Hok. rewrite fetchWithRetry_unfold. turn. now rewrite H, Hok.
Qed.

(** A response handed back by the retry loop is a successful answer of the
    server to this very request. *)
Lemma retryLoop_ok_inv (server : Server) (request : Request) (fuel : nat) :
  forall (attempt : Z) (w w' : World) (response : Response),
    retryLoop fuel server request attempt w = (Ok response, w') ->
    exists m : nat, server m request = Responds response /\ ok response = true.
Proof.
  induction fuel as [| fuel IH]; intros attempt w w' response; [discriminate |].
  destruct (Z.lt_ge_cases attempt MAX_ATTEMPTS) as [Hlt | Hge].
  - rewrite retryLoop_turn by exact Hlt.
    destruct (server (requests w) request) as [r | message] eqn:Hs.
    + destruct (ok r) eqn:Hok.
      * intros [= <- _]. now exists (requests w).
      * destruct (attempt + 1 <? MAX_ATTEMPTS); [apply IH | discriminate].
    + destruct (attempt + 1 <? MAX_ATTEMPTS); [apply IH | discriminate].
  - now rewrite retryLoop_exhausted.
Qed.

Lemma pageLoop_turn (fuel : nat) (server : Server) (apiKey : string)
    (limit maxPages : Z) (st : Paging) (w : World) :
  pageLoop (S fuel) server apiKey limit maxPages st w =
    if hasNext st && (page st <=? maxPages) then
      match fetchWithRetry server (buildPatientsUrl (page st) limit) apiKey w with
      | (Ok response, w1) =>
          match json response with
          | None => (Throw InvalidJson, w1)
          | Some payload =>
              pageLoop fuel server apiKey limit maxPages (advance maxPages st payload) w1
          end
      | (Throw e, w1) => (Throw e, w1)
      | (OutOfFuel, w1) => (OutOfFuel, w1)
      end
    else (Ok st, w).
Proof.
  cbn [pageLoop]. destruct (hasNext st && (page st <=? maxPages)); [| reflexivity].
  unfold await.
  destruct (fetchWithRetry server (buildPatientsUrl (page st) limit) apiKey w)
    as [[response | e |] w1]; try reflexivity.
  now destruct (json response).
Qed.

Lemma advance_hasNext (maxPages : Z) (st : Paging) (p : PatientsResponse) :
  hasNext (advance maxPages st p) = nextPageWanted maxPages (page st) (totalPages st) p.
Proof.
  unfold advance, nextPageWanted, reportedTotal, pageData. simpl.
  destruct (pagination p ≫= pg_hasNext); [reflexivity |].
  destruct (pagination p ≫= pg_totalPages); [reflexivity |].
  destruct (totalPages st); [reflexivity |].
  now destruct (default [] (data p)).
Qed.

Lemma continue_iff (maxPages : Z) (st : Paging) :
  hasNext st && (page st <=? maxPages) = true ↔ hasNext st = true ∧ page st <= maxPages.
Proof. rewrite andb_true_iff, Z.leb_le. reflexivity. Qed.

Lemma pageLoop_fetched (server : Server) (apiKey : string) (limit maxPages : Z)
    (fuel : nat) :
  forall (st : Paging) (w : World),
    (Z.to_nat (maxPages + 1 - page st) < fuel)%nat ->
    match pageLoop fuel server apiKey limit maxPages st w with
    | (Ok st', _) => ∃ pages, Fetched server apiKey limit maxPages st pages st'
    | (Throw _, _) => True
    | (OutOfFuel, _) => False
    end.
Proof.
  induction fuel as [| fuel IH]; intros st w Hfuel; [lia |].
  rewrite pageLoop_turn.
  destruct (hasNext st && (page st <=? maxPages)) eqn:Hgo.
  - apply continue_iff in Hgo as Hgo'. destruct Hgo' as [Hnext Hpage].
    pose proof (fetchWithRetry_schedule server
                  (buildPatientsUrl (page st) limit) apiKey w) as (_ & _ & Hf & _).
    destruct (fetchWithRetry server (buildPatientsUrl (page st) limit) apiKey w)
      as [[response | e |] w1] eqn:Hfetch; [| exact I | now apply Hf].
    destruct (json response) as [p |] eqn:Hjson; [| exact I].
    specialize (IH (advance maxPages st p) w1).
    destruct (pageLoop fuel server apiKey limit maxPages (advance maxPages st p) w1)
      as [[st' | e |] w2]; [| exact I | apply IH; simpl; lia].
    destruct IH as (pages & Hcount & Hpat & Htot & Hsome & Hall); [simpl; lia |].
    assert (Hshift : forall k : nat,
              page st + Z.of_nat (S k) = page (advance maxPages st p) + Z.of_nat k)
      by (intros k; simpl; lia).
    exists (p :: pages). unfold Fetched.
    split; [| split; [| split; [| split]]].
    + rewrite Hcount. simpl. lia.
    + rewrite Hpat. simpl. now rewrite <- app_assoc.
    + exact Htot.
    + split; [intros _; now split | intros _; simpl; lia].
    + intros [| k] q Hk.
      * injection Hk as <-. rewrite Z.add_0_r. split.
        -- rewrite fetchWithRetry_unfold in Hfetch.
           apply retryLoop_ok_inv in Hfetch as (m & Hm & Hok).
           now exists m, response.
        -- change (knownTotal (totalPages st) (take 0 (p :: pages)))
             with (totalPages st).
           rewrite <- advance_hasNext.
           change (page st + 1) with (page (advance maxPages st p)).
           rewrite <- Hsome. simpl. lia.
      * rewrite Hshift.
        change (knownTotal (totalPages st) (take (S k) (p :: pages)))
          with (knownTotal (totalPages (advance maxPages st p)) (take k pages)).
        destruct (Hall k q Hk) as [Hfrom Hnext']. split; [exact Hfrom |].
        rewrite <- Hnext'. simpl. lia.
  - exists []. unfold Fetched. simpl. rewrite app_nil_r.
    split; [lia |]. split; [reflexivity |]. split; [reflexivity |].
    split; [| intros k q Hk; discriminate].
    split; [lia |].
    intros Hgo'%continue_iff. congruence.
Qed.

(** C2, as the code has it.  A run never runs out of fuel, and when it
    returns, the pages fetched are exactly those the priority rule asks for
    below the ceiling: the response's own [hasNext]; else the page number
    against the latest total reported so far; else a non-empty page below
    the ceiling.  The total of the result is the latest one reported, or
    the number of pages fetched when none was. *)
Theorem pagination_priority_rule (env : Env) (server : Server)
    (limit maxPages : Z) (w : World) :
  RunDecidedBy ruleOfTheCode env server limit maxPages w.
Proof.
  unfold RunDecidedBy, fetchAllPatients.
  destruct (getApiKey env) as [apiKey | e |] eqn:Hkey; [| exact I |].
  - unfold await.
    pose proof (pageLoop_fetched server apiKey limit maxPages
                  (S (Z.to_nat maxPages)) firstPage w) as H.
    destruct (pageLoop (S (Z.to_nat maxPages)) server apiKey limit maxPages firstPage w)
      as [[st' | e |] w']; [| exact I | apply H; simpl; lia].
    destruct H as (pages & Hcount & Hpat & Htot & Hsome & Hall); [simpl; lia |].
    exists apiKey, pages. unfold pure. simpl in *.
    rewrite Hcount, Hpat, Htot.
    split; [reflexivity |]. split; [reflexivity |]. split; [reflexivity |].
    split; [reflexivity |]. split; [| exact Hall].
    rewrite Hsome. intuition.
  - unfold getApiKey in Hkey. now destruct (falsy _).
Qed.

Lemma pagination_priority_rule_witness :
  fetchAllPatients keyed totalOnlyOnce 5 10 startWorld =
    (Ok {| r_patients := [firstRecord]; r_pagesFetched := 3;
           r_totalPages := 3; r_limit := 5 |},
     {| requests := 3; waited := [] |}) ∧
  RunDecidedBy ruleOfTheCode keyed totalOnlyOnce 5 10 startWorld.
Proof.
  split; [reflexivity |].
  exact (pagination_priority_rule keyed totalOnlyOnce 5 10 startWorld).
Defined.

(** C2, as stated, fails when a response without pagination data follows
    one that reported the total: the second page below is empty and says
    nothing, the stated rule stops there, the code goes on to page 3. *)
Lemma stated_rule_forgets_earlier_total :
  ~ (forall (env : Env) (server : Server) (limit maxPages : Z) (w : World),
       RunDecidedBy ruleAsStated env server limit maxPages w).
Proof.
  intros H. specialize (H keyed totalOnlyOnce 5 10 startWorld).
  unfold RunDecidedBy in H. vm_compute fetchAllPatients in H.
  destruct H as (apiKey & pages & _ & Hcount & _ & _ & _ & Hall).
  simpl in Hcount.
  destruct pages as [| p1 [| p2 [| p3 [| p4 rest]]]]; simpl in Hcount; try lia.
  destruct (Hall 1%nat p2 eq_refl) as [(m & response & Hm & _ & Hj) Hnext].
  unfold totalOnlyOnce in Hm. simpl in Hm. injection Hm as <-.
  simpl in Hj. injection Hj as <-.
  assert (Hlen : (2 < length [p1; page2; p3])%nat) by (simpl; lia).
  apply Hnext in Hlen as [Hrule _]. discriminate Hrule.
Qed.

(** ** The page ceiling *)

Lemma pageLoop_to_ceiling (server : Server) (apiKey : string) (limit maxPages : Z)
    (fuel : nat) :
  AlwaysHasNext server ->
  forall (st : Paging) (w : World),
    hasNext st = true -> page st <= maxPages + 1 ->
    (Z.to_nat (maxPages + 1 - page st) < fuel)%nat ->
    exists (st' : Paging) (w' : World),
      pageLoop fuel server apiKey limit maxPages st w = (Ok st', w') /\
      pagesFetched st' = pagesFetched st + (maxPages + 1 - page st) /\
      requests w' = (requests w + Z.to_nat (maxPages + 1 - page st))%nat.
Proof.
  intros Hserver.
  induction fuel as [| fuel IH]; intros st w Hnext Hpage Hfuel; [lia |].
  rewrite pageLoop_turn, Hnext. simpl.
  destruct (Z.leb_spec (page st) maxPages) as [Hle | Hgt].
  - destruct (Hserver (requests w)
                (patientsRequest (buildPatientsUrl (page st) limit) apiKey))
      as (response & payload & Hs & Hok & Hj & Hflag).
    rewrite (fetchWithRetry_first_ok _ _ _ _ response Hs Hok), Hj.
    destruct (IH (advance maxPages st payload) (afterSend w))
      as (st' & w' & Hrun & Hcount & Hreq).
    + rewrite advance_hasNext. unfold nextPageWanted. now rewrite Hflag.
    + simpl. lia.
    + simpl. lia.
    + exists st', w'. rewrite Hrun, Hcount, Hreq. simpl.
      split; [reflexivity |]. split; lia.
  - exists st, w. split; [reflexivity |]. split; lia.
Qed.

(** C9.  Against a server that always reports [hasNext = true] the run
    returns normally after exactly [maxPages] pages, one request each. *)
Theorem ceiling_stops_quietly (env : Env) (server : Server) (limit maxPages : Z)
    (w : World) (apiKey : string) :
  getApiKey env = Ok apiKey ->
  0 <= maxPages ->
  AlwaysHasNext server ->
  exists (r : FetchResult) (w' : World),
    fetchAllPatients env server limit maxPages w = (Ok r, w') /\
    r_pagesFetched r = maxPages /\
    requests w' = (requests w + Z.to_nat maxPages)%nat.
Proof.
  intros Hkey Hmax Hserver. unfold fetchAllPatients. rewrite Hkey.
  destruct (pageLoop_to_ceiling server apiKey limit maxPages
              (S (Z.to_nat maxPages)) Hserver firstPage w)
    as (st' & w' & Hrun & Hcount & Hreq); [reflexivity | simpl; lia | simpl; lia |].
  unfold await. rewrite Hrun. unfold pure. eexists _, w'.
  split; [reflexivity |]. simpl in *. split; [lia |].
  rewrite Hreq. f_equal. f_equal. lia.
Qed.

Lemma ceiling_stops_quietly_witness :
  exists (r : FetchResult) (w' : World),
    fetchAllPatients keyed alwaysMore 5 3 startWorld = (Ok r, w') /\
    r_pagesFetched r = 3 /\ requests w' = 3%nat.
Proof.
  apply (ceiling_stops_quietly keyed alwaysMore 5 3 startWorld "key").
  - reflexivity.
  - discriminate.
  - intros m request. eexists _, _. repeat split.
Defined.

(** * Further properties *)

(** ** The calculator *)

Lemma temperature_score_range (temperatureValue : string) :
  0 <= getTemperatureScore temperatureValue <= 2.
Proof.
  unfold getTemperatureScore. destruct (parseNumber temperatureValue); [| lia].
  repeat match goal with
         | |- context [if ?c then _ else _] => destruct c
         end; lia.
Qed.

Lemma age_score_range (ageValue : string) : 0 <= getAgeScore ageValue <= 2.
Proof.
  unfold getAgeScore. destruct (parseNumber ageValue); [| lia].
  repeat match goal with
         | |- context [if ?c then _ else _] => destruct c
         end; lia.
Qed.

(** X1.  The breakdown of the form: each score stays in its range, the
    total is their sum and lies in 0..8, and a field that does not parse
    counts 0 for its category. *)
Theorem calculateScores_breakdown (inputs : Inputs.t) :
  ScoreBreakdown.total (calculateScores inputs) =
    ScoreBreakdown.bloodPressure (calculateScores inputs)
    + ScoreBreakdown.temperature (calculateScores inputs)
    + ScoreBreakdown.age (calculateScores inputs) /\
  0 <= ScoreBreakdown.bloodPressure (calculateScores inputs) <= 4 /\
  0 <= ScoreBreakdown.temperature (calculateScores inputs) <= 2 /\
  0 <= ScoreBreakdown.age (calculateScores inputs) <= 2 /\
  0 <= ScoreBreakdown.total (calculateScores inputs) <= 8 /\
  (parseNumber (Inputs.systolic inputs) = None
   \/ parseNumber (Inputs.diastolic inputs) = None ->
   ScoreBreakdown.bloodPressure (calculateScores inputs) = 0) /\
  (parseNumber (Inputs.temperature inputs) = None ->
   ScoreBreakdown.temperature (calculateScores inputs) = 0) /\
  (parseNumber (Inputs.age inputs) = None ->
   ScoreBreakdown.age (calculateScores inputs) = 0).
Proof.
  unfold calculateScores. simpl.
  pose proof (blood_pressure_score_range (Inputs.systolic inputs)
                (Inputs.diastolic inputs)) as Hbp.
  pose proof (temperature_score_range (Inputs.temperature inputs)) as Ht.
  pose proof (age_score_range (Inputs.age inputs)) as Ha.
  split; [reflexivity |]. split; [exact Hbp |]. split; [exact Ht |].
  split; [exact Ha |]. split; [lia |]. split; [| split].
  - unfold getBloodPressureScore. intros [-> | H]; [reflexivity |].
    rewrite H. now destruct (parseNumber (Inputs.systolic inputs)).
  - unfold getTemperatureScore. now intros ->.
  - unfold getAgeScore. now intros ->.
Qed.

Lemma calculateScores_breakdown_witness :
  ScoreBreakdown.bloodPressure
    (calculateScores {| Inputs.systolic := "128"; Inputs.diastolic := "";
                        Inputs.temperature := "n/a"; Inputs.age := "  " |}) = 0 /\
  ScoreBreakdown.temperature
    (calculateScores {| Inputs.systolic := "128"; Inputs.diastolic := "";
                        Inputs.temperature := "n/a"; Inputs.age := "  " |}) = 0 /\
  ScoreBreakdown.age
    (calculateScores {| Inputs.systolic := "128"; Inputs.diastolic := "";
                        Inputs.temperature := "n/a"; Inputs.age := "  " |}) = 0.
Proof.
  pose proof (calculateScores_breakdown
                {| Inputs.systolic := "128"; Inputs.diastolic := "";
                   Inputs.temperature := "n/a"; Inputs.age := "  " |})
    as (_ & _ & _ & _ & _ & Hbp & Ht & Ha).
  split; [apply Hbp; right; reflexivity |].
  split; [apply Ht; reflexivity | apply Ha; reflexivity].
Defined.

(** X2.  On whole-number readings the score is the higher of the stages of
    the two readings, as the form tells its user. *)
Theorem blood_pressure_higher_stage_wins (sv dv : string) (s d : Q) :
  parseNumber sv = Some s -> parseNumber dv = Some d ->
  isInteger s = true -> isInteger d = true ->
  getBloodPressureScore sv dv =
    Z.max (systolicStage (Qfloor s)) (diastolicStage (Qfloor d)).
Proof.
  intros Hs Hd Is Id.
  rewrite (blood_pressure_score_integers sv dv s d Hs Hd Is Id).
  unfold systolicStage, diastolicStage.
  repeat match goal with
         | |- context [?a <=? ?b] => destruct (Z.leb_spec a b); simpl; try lia
         end.
Qed.

Lemma blood_pressure_higher_stage_wins_witness :
  getBloodPressureScore "118" "85" = Z.max (systolicStage 118) (diastolicStage 85).
Proof.
  exact (blood_pressure_higher_stage_wins "118" "85" 118%Q 85%Q
           eq_refl eq_refl eq_refl eq_refl).
Defined.

(** X3.  The age score never decreases when the age increases; no gap as
    in the other two scores. *)
Theorem age_score_monotone (ageValue ageValue' : string) (a a' : Q) :
  parseNumber ageValue = Some a -> parseNumber ageValue' = Some a' ->
  (a <= a')%Q -> getAgeScore ageValue <= getAgeScore ageValue'.
Proof.
  intros Ha Ha' Hle. unfold getAgeScore. rewrite Ha, Ha'.
  repeat match goal with
         | |- context [Qle_bool ?x ?y] =>
             let E := fresh "E" in
             destruct (Qle_bool x y) eqn:E;
             [apply geq_true in E | apply geq_false in E]
         end;
  simpl; try lia; exfalso; lra.
Qed.

Lemma age_score_monotone_witness : getAgeScore "39.5" <= getAgeScore "65.5".
Proof.
  apply (age_score_monotone "39.5" "65.5" 39.5%Q 65.5%Q eq_refl eq_refl).
  discriminate.
Defined.

(** ** Query parameters of the route *)

Lemma Math_trunc_nonneg (q : Q) : (0 <= q)%Q -> Math_trunc q = Qfloor q.
Proof.
  intros H. unfold Math_trunc. now rewrite (proj2 (Qle_bool_iff 0 q) H).
Qed.

Lemma Math_trunc_below_one (q : Q) : (q < 1)%Q -> Math_trunc q <= 0.
Proof.
  intros H. unfold Math_trunc. destruct (Qle_bool 0 q) eqn:E.
  - pose proof (Qfloor_le q) as Hf.
    assert (L : (inject_Z (Qfloor q) < inject_Z 1)%Q)
      by (eapply Qle_lt_trans; [exact Hf | exact H]).
    rewrite <- Zlt_Qlt in L. lia.
  - apply geq_false in E. pose proof (Qceiling_lt q) as Hc.
    assert (L : (inject_Z (Qceiling q - 1) < inject_Z 0)%Q)
      by (eapply Qlt_trans; [exact Hc | exact E]).
    rewrite <- Zlt_Qlt in L. lia.
Qed.

Lemma clampLimit_range (raw : option string) : 1 <= clampLimit raw <= 20.
Proof. unfold clampLimit. destruct (NumberOfParam raw); lia. Qed.

Lemma parseMaxPages_range (raw : option string) : 1 <= parseMaxPages raw.
Proof. unfold parseMaxPages. destruct (NumberOfParam raw); lia. Qed.

(** X4.  Whatever the query says, the limit handed to the client lies in
    1..20 and the page ceiling is at least 1; a whole number already in
    range is taken as it is. *)
Theorem query_parameters_in_range (raw : option string) :
  1 <= clampLimit raw <= 20 /\
  1 <= parseMaxPages raw /\
  (forall q : Q, NumberOfParam raw = Finite q -> isInteger q = true ->
     (1 <= q)%Q ->
     parseMaxPages raw = Qfloor q /\
     ((q <= 20)%Q -> clampLimit raw = Qfloor q)).
Proof.
  split; [apply clampLimit_range |].
  split; [apply parseMaxPages_range |].
  unfold clampLimit, parseMaxPages. intros q -> Hint Hone.
  assert (H0 : (0 <= q)%Q) by lra.
  rewrite (Math_trunc_nonneg q H0).
  apply isInteger_floor in Hint.
  assert (L1 : 1 <= Qfloor q).
  { rewrite Zle_Qle. now rewrite <- Hint. }
  split; [lia |]. intros H20.
  assert (L20 : Qfloor q <= 20).
  { rewrite Zle_Qle. now rewrite <- Hint. }
  lia.
Qed.

Lemma query_parameters_in_range_witness :
  parseMaxPages (Some "10") = 10 /\ clampLimit (Some "20") = 20.
Proof.
  split.
  - exact (proj1 (proj2 (proj2 (query_parameters_in_range (Some "10")))
                    10%Q eq_refl eq_refl ltac:(discriminate))).
  - exact (proj2 (proj2 (proj2 (query_parameters_in_range (Some "20")))
                    20%Q eq_refl eq_refl ltac:(discriminate))
                 ltac:(discriminate)).
Defined.

(** X5.  The defaults 5 and 10 apply only to text that is not a finite
    number.  A parameter that is absent or empty converts to 0 and is
    raised to 1, like every number below 1. *)
Theorem query_parameters_defaults (raw : option string) :
  ((forall q : Q, NumberOfParam raw <> Finite q) ->
     clampLimit raw = 5 /\ parseMaxPages raw = 10) /\
  (forall q : Q, NumberOfParam raw = Finite q -> (q < 1)%Q ->
     clampLimit raw = 1 /\ parseMaxPages raw = 1) /\
  (raw = None \/ raw = Some "" -> clampLimit raw = 1 /\ parseMaxPages raw = 1).
Proof.
  unfold clampLimit, parseMaxPages. split; [| split].
  - intros H. destruct (NumberOfParam raw) as [| | | q]; try (split; reflexivity).
    now destruct (H q).
  - intros q -> Hq. pose proof (Math_trunc_below_one q Hq). lia.
  - intros [-> | ->]; split; reflexivity.
Qed.

Lemma query_parameters_defaults_witness :
  (clampLimit (Some "many") = 5 /\ parseMaxPages (Some "many") = 10) /\
  (clampLimit (Some "-3.5") = 1 /\ parseMaxPages (Some "-3.5") = 1) /\
  (clampLimit None = 1 /\ parseMaxPages None = 1).
Proof.
  split; [| split].
  - apply (proj1 (query_parameters_defaults (Some "many"))).
    intros q. discriminate.
  - apply (proj1 (proj2 (query_parameters_defaults (Some "-3.5"))) (-3.5)%Q);
      reflexivity.
  - apply (proj2 (proj2 (query_parameters_defaults None))). now left.
Defined.

(** ** The API key *)

(** X6.  The key is the first of the two variables that is set, provided
    it is not empty: an empty [DEMOMED_API_KEY] hides the public one.
    Without a key the client throws before it sends anything. *)
Theorem api_key_resolution (env : Env) :
  (forall k : string,
     getApiKey env = Ok k <->
     k <> "" /\
     (DEMOMED_API_KEY env = Some k \/
      (DEMOMED_API_KEY env = None /\ NEXT_PUBLIC_DEMOMED_API_KEY env = Some k))) /\
  ((forall k : string, getApiKey env <> Ok k) ->
   forall (server : Server) (limit maxPages : Z) (w : World),
     fetchAllPatients env server limit maxPages w = (Throw MissingApiKey, w)).
Proof.
  split.
  - intros k. unfold getApiKey.
    destruct (DEMOMED_API_KEY env) as [k1 |];
      [| destruct (NEXT_PUBLIC_DEMOMED_API_KEY env) as [k2 |]]; simpl.
    + case_bool_decide; split.
      * discriminate.
      * intros [Hk [[= ->] | [[=] _]]]. contradiction.
      * intros [= ->]. auto.
      * intros [_ [[= ->] | [[=] _]]]. reflexivity.
    + case_bool_decide; split.
      * discriminate.
      * intros [Hk [[=] | [_ [= ->]]]]. contradiction.
      * intros [= ->]. auto.
      * intros [_ [[=] | [_ [= ->]]]]. reflexivity.
    + split; [discriminate | intros [_ [[=] | [_ [=]]]]].
  - intros Hno server limit maxPages w. unfold fetchAllPatients.
    destruct (getApiKey env) as [k | e |] eqn:Hk.
    + now destruct (Hno k).
    + unfold getApiKey in Hk. destruct (falsy _); [| discriminate].
      now injection Hk as <-.
    + unfold getApiKey in Hk. now destruct (falsy _).
Qed.

Lemma api_key_resolution_witness :
  fetchAllPatients {| DEMOMED_API_KEY := Some "";
                      NEXT_PUBLIC_DEMOMED_API_KEY := Some "public" |}
    alwaysMore 5 10 startWorld = (Throw MissingApiKey, startWorld).
Proof.
  apply (proj2 (api_key_resolution _)).
  intros k H.
  apply (proj1 (proj1 (api_key_resolution _) k)) in H as [Hk [[= <-] | [[=] _]]].
  now apply Hk.
Defined.

(** ** What a call of [fetchWithRetry] comes to *)

Lemma retryLoop_failed_turn (fuel : nat) (server : Server) (request : Request)
    (attempt : Z) (w : World) :
  attempt < MAX_ATTEMPTS ->
  succeeded (server (requests w) request) = false ->
  retryLoop (S fuel) server request attempt w =
    if attempt + 1 <? MAX_ATTEMPTS
    then retryLoop fuel server request (attempt + 1)
           (afterWait (backoff (attempt + 1)) (afterSend w))
    else (Throw (errorOf (server (requests w) request)), afterSend w).
Proof.
  intros Hlt Hfail. rewrite retryLoop_turn by exact Hlt.
  destruct (server (requests w) request) as [response | message]; simpl in *.
  - now rewrite Hfail.
  - reflexivity.
Qed.

Lemma schedule_one (a : Z) : schedule a 1 = [].
Proof. reflexivity. Qed.

(** The first [k] attempts fail and the next one succeeds. *)
Lemma retryLoop_first_success (server : Server) (request : Request)
    (response : Response) (k : nat) :
  forall (fuel : nat) (attempt : Z) (w : World),
    0 <= attempt -> attempt + Z.of_nat k < MAX_ATTEMPTS -> (k < fuel)%nat ->
    (forall j : nat, (j < k)%nat ->
       succeeded (server (requests w + j)%nat request) = false) ->
    server (requests w + k)%nat request = Responds response ->
    ok response = true ->
    retryLoop fuel server request attempt w =
      (Ok response,
       {| requests := requests w + S k;
          waited := waited w ++ schedule attempt (S k) |}).
Proof.
  induction k as [| k IH]; intros fuel attempt w Ha Hk Hfuel Hfail Hs Hok;
    (destruct fuel as [| fuel]; [lia |]).
  - rewrite Nat.add_0_r in Hs.
    rewrite retryLoop_turn, Hs, Hok by lia.
    unfold afterSend. rewrite schedule_one, app_nil_r. do 2 f_equal. lia.
  - rewrite retryLoop_failed_turn.
    + destruct (Z.ltb_spec (attempt + 1) MAX_ATTEMPTS); [| lia].
      rewrite (IH fuel (attempt + 1)); try lia.
      * cbn [afterWait afterSend requests waited]. rewrite <- app_assoc.
        cbn [app]. unfold backoff, BASE_DELAY_MS. rewrite schedule_next by lia.
        do 2 f_equal. lia.
      * intros j Hj. cbn [afterWait afterSend requests].
        rewrite Nat.add_succ_comm. apply Hfail. lia.
      * cbn [afterWait afterSend requests]. rewrite Nat.add_succ_comm.
        exact Hs.
      * exact Hok.
    + lia.
    + specialize (Hfail 0%nat ltac:(lia)). now rewrite Nat.add_0_r in Hfail.
Qed.

(** All the attempts that are left fail. *)
Lemma retryLoop_all_fail (server : Server) (request : Request) (n : nat) :
  forall (fuel : nat) (attempt : Z) (w : World),
    attempt = MAX_ATTEMPTS - Z.of_nat (S n) -> (S n <= fuel)%nat ->
    (forall j : nat, (j <= n)%nat ->
       succeeded (server (requests w + j)%nat request) = false) ->
    retryLoop fuel server request attempt w =
      (Throw (errorOf (server (requests w + n)%nat request)),
       {| requests := requests w + S n;
          waited := waited w ++ schedule attempt (S n) |}).
Proof.
  induction n as [| n IH]; intros fuel attempt w Ha Hfuel Hfail;
    (destruct fuel as [| fuel]; [lia |]).
  - rewrite retryLoop_failed_turn.
    + destruct (Z.ltb_spec (attempt + 1) MAX_ATTEMPTS); [lia |].
      rewrite Nat.add_0_r. unfold afterSend.
      rewrite schedule_one, app_nil_r. do 2 f_equal. lia.
    + lia.
    + specialize (Hfail 0%nat ltac:(lia)). now rewrite Nat.add_0_r in Hfail.
  - rewrite retryLoop_failed_turn.
    + destruct (Z.ltb_spec (attempt + 1) MAX_ATTEMPTS); [| lia].
      rewrite (IH fuel (attempt + 1)); try lia.
      * cbn [afterWait afterSend requests waited]. rewrite <- app_assoc.
        cbn [app]. unfold backoff, BASE_DELAY_MS. rewrite schedule_next by lia.
        rewrite Nat.add_succ_comm. do 2 f_equal. lia.
      * intros j Hj. cbn [afterWait afterSend requests].
        rewrite Nat.add_succ_comm. apply Hfail. lia.
    + lia.
    + specialize (Hfail 0%nat ltac:(lia)). now rewrite Nat.add_0_r in Hfail.
Qed.

Lemma schedule_values (k : nat) :
  (k <= 4)%nat -> schedule 0 (S k) = take k [300; 600; 1200; 2400].
Proof.
  intros H. do 5 (destruct k as [| k]; [reflexivity |]). lia.
Qed.

Lemma fetchWithRetry_succeeds (server : Server) (url : Url) (apiKey : string)
    (w : World) (k : nat) (response : Response) :
  (k <= 4)%nat ->
  (forall j : nat, (j < k)%nat ->
     succeeded (server (requests w + j)%nat (patientsRequest url apiKey)) = false) ->
  server (requests w + k)%nat (patientsRequest url apiKey) = Responds response ->
  ok response = true ->
  fetchWithRetry server url apiKey w =
    (Ok response,
     {| requests := requests w + S k;
        waited := waited w ++ take k [300; 600; 1200; 2400] |}).
Proof.
  intros Hk Hfail Hs Hok. rewrite fetchWithRetry_unfold.
  rewrite (retryLoop_first_success server _ response k 6 0 w);
    try assumption; try (unfold MAX_ATTEMPTS; lia).
  now rewrite schedule_values.
Qed.

Lemma fetchWithRetry_gives_up (server : Server) (url : Url) (apiKey : string)
    (w : World) :
  (forall j : nat, (j <= 4)%nat ->
     succeeded (server (requests w + j)%nat (patientsRequest url apiKey)) = false) ->
  fetchWithRetry server url apiKey w =
    (Throw (errorOf (server (requests w + 4)%nat (patientsRequest url apiKey))),
     {| requests := requests w + 5; waited := waited w ++ [300; 600; 1200; 2400] |}).
Proof.
  intros Hfail. rewrite fetchWithRetry_unfold.
  rewrite (retryLoop_all_fail server _ 4 6 0 w); try assumption; try reflexivity.
  lia.
Qed.

(** The index of the first attempt that succeeds, among the first [n]. *)
Lemma first_success_or_none (f : nat -> bool) (n : nat) :
  (exists k : nat, (k < n)%nat /\ f k = true /\
                   forall j : nat, (j < k)%nat -> f j = false) \/
  (forall j : nat, (j < n)%nat -> f j = false).
Proof.
  induction n as [| n [(k & Hk & Hf & Hbefore) | Hnone]].
  - right. intros j Hj. lia.
  - left. exists k. repeat split; try assumption. lia.
  - destruct (f n) eqn:Hn.
    + left. exists n. repeat split; try assumption. lia.
    + right. intros j Hj. destruct (decide (j = n)) as [-> | Hne]; [assumption |].
      apply Hnone. lia.
Qed.

(** X7.  A call returns the first successful response among its first five
    attempts, after one delay per failed attempt; when all five fail it
    throws the error of the fifth.  The error "Exceeded maximum retry
    attempts" after the loop is never thrown. *)
Theorem fetchWithRetry_outcome (server : Server) (url : Url) (apiKey : string)
    (w : World) :
  (forall (k : nat) (response : Response),
     (k <= 4)%nat ->
     (forall j : nat, (j < k)%nat ->
        succeeded (server (requests w + j)%nat (patientsRequest url apiKey)) = false) ->
     server (requests w + k)%nat (patientsRequest url apiKey) = Responds response ->
     ok response = true ->
     fetchWithRetry server url apiKey w =
       (Ok response,
        {| requests := requests w + S k;
           waited := waited w ++ take k [300; 600; 1200; 2400] |})) /\
  ((forall j : nat, (j <= 4)%nat ->
      succeeded (server (requests w + j)%nat (patientsRequest url apiKey)) = false) ->
   fetchWithRetry server url apiKey w =
     (Throw (errorOf (server (requests w + 4)%nat (patientsRequest url apiKey))),
      {| requests := requests w + 5;
         waited := waited w ++ [300; 600; 1200; 2400] |})) /\
  fst (fetchWithRetry server url apiKey w) <> Throw ExceededMaximumRetryAttempts.
Proof.
  split; [| split].
  - intros k response. apply fetchWithRetry_succeeds.
  - apply fetchWithRetry_gives_up.
  - destruct (first_success_or_none
                (fun j => succeeded (server (requests w + j)%nat
                                       (patientsRequest url apiKey))) 5)
      as [(k & Hk & Hs & Hbefore) | Hnone].
    + destruct (server (requests w + k)%nat (patientsRequest url apiKey))
        as [response | message] eqn:Hk'; [| discriminate].
      rewrite (fetchWithRetry_succeeds server url apiKey w k response);
        try assumption; [discriminate | lia].
    + rewrite fetchWithRetry_gives_up by (intros j Hj; apply Hnone; lia).
      simpl. now destruct (server (requests w + 4)%nat (patientsRequest url apiKey)).
Qed.

Lemma fetchWithRetry_outcome_witness :
  fetchWithRetry timeoutsThenFine (buildPatientsUrl 1 5) "key" startWorld =
    (Ok emptyPage, {| requests := 3; waited := [300; 600] |}) /\
  fetchWithRetry alwaysBusy (buildPatientsUrl 1 5) "key" startWorld =
    (Throw (RequestFailed 429 "Too Many Requests"),
     {| requests := 5; waited := [300; 600; 1200; 2400] |}).
Proof.
  split.
  - apply (proj1 (fetchWithRetry_outcome timeoutsThenFine (buildPatientsUrl 1 5)
                    "key" startWorld) 2%nat emptyPage).
    + repeat constructor.
    + intros [| [| j]] Hj; [reflexivity | reflexivity |].
      exfalso. apply (Nat.nlt_0_r j). apply Nat.succ_lt_mono, Nat.succ_lt_mono.
      exact Hj.
    + reflexivity.
    + reflexivity.
  - apply (proj1 (proj2 (fetchWithRetry_outcome alwaysBusy (buildPatientsUrl 1 5)
                           "key" startWorld))).
    intros j Hj. reflexivity.
Defined.

(** ** What a run of [fetchAllPatients] costs *)

Lemma total_ms_app (a b : list Z) : total_ms (a ++ b) = total_ms a + total_ms b.
Proof.
  unfold total_ms. induction a as [| x a IH]; simpl; [reflexivity |].
  rewrite IH. lia.
Qed.

Lemma fetchWithRetry_cost (server : Server) (url : Url) (apiKey : string)
    (w : World) :
  exists new : list Z,
    waited (snd (fetchWithRetry server url apiKey w)) = waited w ++ new /\
    Forall (fun d => d ∈ [300; 600; 1200; 2400]) new /\
    total_ms new <= 4500 /\
    (requests w <= requests (snd (fetchWithRetry server url apiKey w))
     <= requests w + 5)%nat.
Proof.
  destruct (fetchWithRetry_schedule server url apiKey w)
    as (n & Hn & _ & Hreq & Hwait).
  eexists. split; [exact Hwait |]. rewrite Hreq.
  split; [| split; [| lia]].
  - do 6 (destruct n as [| n]; [try lia; simpl; repeat constructor |]); lia.
  - do 6 (destruct n as [| n]; [try lia; vm_compute; discriminate |]); lia.
Qed.

Lemma pageLoop_cost (server : Server) (apiKey : string) (limit maxPages : Z)
    (fuel : nat) :
  forall (st : Paging) (w : World),
    exists new : list Z,
      waited (snd (pageLoop fuel server apiKey limit maxPages st w)) = waited w ++ new /\
      Forall (fun d => d ∈ [300; 600; 1200; 2400]) new /\
      total_ms new <= 4500 * pagesLeft maxPages st /\
      (requests w <= requests (snd (pageLoop fuel server apiKey limit maxPages st w))
       <= requests w + 5 * Z.to_nat (pagesLeft maxPages st))%nat /\
      forall st' : Paging,
        fst (pageLoop fuel server apiKey limit maxPages st w) = Ok st' ->
        pagesFetched st <= pagesFetched st'
        <= pagesFetched st + pagesLeft maxPages st.
Proof.
  assert (Hstay : forall (st : Paging) (w : World) (o : Outcome Paging),
            (forall st', o = Ok st' -> st' = st) ->
            exists new : list Z,
              waited (snd (o, w)) = waited w ++ new /\
              Forall (fun d => d ∈ [300; 600; 1200; 2400]) new /\
              total_ms new <= 4500 * pagesLeft maxPages st /\
              (requests w <= requests (snd (o, w))
               <= requests w + 5 * Z.to_nat (pagesLeft maxPages st))%nat /\
              forall st' : Paging, fst (o, w) = Ok st' ->
                pagesFetched st <= pagesFetched st'
                <= pagesFetched st + pagesLeft maxPages st).
  { intros st w o Ho. exists []. simpl. rewrite app_nil_r.
    unfold pagesLeft. repeat split; try lia; try constructor.
    - rewrite (Ho st' H). lia.
    - rewrite (Ho st' H). lia. }
  induction fuel as [| fuel IH]; intros st w.
  - apply Hstay. discriminate.
  - rewrite pageLoop_turn.
    destruct (hasNext st && (page st <=? maxPages)) eqn:Hgo;
      [| apply Hstay; now intros st' [= <-]].
    apply continue_iff in Hgo as [_ Hpage].
    destruct (fetchWithRetry_cost server (buildPatientsUrl (page st) limit) apiKey w)
      as (new1 & Hw1 & Hall1 & Hsum1 & Hreq1).
    assert (Hleft : pagesLeft maxPages st = 1 + (maxPages - page st))
      by (unfold pagesLeft; lia).
    assert (Hstop : forall o : Outcome Paging, (forall st', o <> Ok st') ->
              exists new : list Z,
                waited (snd (o, snd (fetchWithRetry server
                          (buildPatientsUrl (page st) limit) apiKey w)))
                  = waited w ++ new /\
                Forall (fun d => d ∈ [300; 600; 1200; 2400]) new /\
                total_ms new <= 4500 * pagesLeft maxPages st /\
                (requests w <= requests (snd (o, snd (fetchWithRetry server
                          (buildPatientsUrl (page st) limit) apiKey w)))
                 <= requests w + 5 * Z.to_nat (pagesLeft maxPages st))%nat /\
                forall st' : Paging,
                  fst (o, snd (fetchWithRetry server
                          (buildPatientsUrl (page st) limit) apiKey w)) = Ok st' ->
                  pagesFetched st <= pagesFetched st'
                  <= pagesFetched st + pagesLeft maxPages st).
    { intros o Ho. exists new1. simpl.
      split; [exact Hw1 |]. split; [exact Hall1 |]. split; [lia |].
      split; [lia |]. intros st' H. now destruct (Ho st'). }
    destruct (fetchWithRetry server (buildPatientsUrl (page st) limit) apiKey w)
      as [[response | e |] w1]; simpl in Hw1, Hreq1, Hstop;
      [| apply Hstop; discriminate | apply Hstop; discriminate].
    destruct (json response) as [p |]; [| apply Hstop; discriminate].
    destruct (IH (advance maxPages st p) w1)
      as (new2 & Hw2 & Hall2 & Hsum2 & Hreq2 & Hcount).
    assert (Hleft' : pagesLeft maxPages (advance maxPages st p) = maxPages - page st)
      by (unfold pagesLeft; simpl; lia).
    rewrite Hleft' in *.
    exists (new1 ++ new2). rewrite Hw2, Hw1, <- app_assoc.
    split; [reflexivity |]. split; [now apply Forall_app |].
    rewrite total_ms_app. split; [lia |]. split; [lia |].
    intros st' Hst'. specialize (Hcount st' Hst'). simpl in Hcount. lia.
Qed.

Lemma fetchAllPatients_bounds (env : Env) (server : Server) (limit maxPages : Z)
    (w : World) :
  exists new : list Z,
    waited (snd (fetchAllPatients env server limit maxPages w)) = waited w ++ new /\
    Forall (fun d => d ∈ [300; 600; 1200; 2400]) new /\
    total_ms new <= 4500 * Z.max 0 maxPages /\
    (requests w <= requests (snd (fetchAllPatients env server limit maxPages w))
     <= requests w + 5 * Z.to_nat maxPages)%nat /\
    forall r : FetchResult,
      fst (fetchAllPatients env server limit maxPages w) = Ok r ->
      0 <= r_pagesFetched r <= Z.max 0 maxPages /\ r_limit r = limit.
Proof.
  unfold fetchAllPatients.
  destruct (getApiKey env) as [apiKey | e |].
  - destruct (pageLoop_cost server apiKey limit maxPages (S (Z.to_nat maxPages))
                firstPage w) as (new & Hw & Hall & Hsum & Hreq & Hcount).
    unfold await.
    destruct (pageLoop (S (Z.to_nat maxPages)) server apiKey limit maxPages firstPage w)
      as [[st' | e |] w']; simpl in *.
    + exists new. unfold pagesLeft in *. simpl in *.
      replace (maxPages + 1 - 1) with maxPages in * by lia.
      repeat split; try assumption; try lia.
      * injection H as <-. simpl. specialize (Hcount st' eq_refl). lia.
      * injection H as <-. simpl. specialize (Hcount st' eq_refl). lia.
      * now injection H as <-.
    + exists new. unfold pagesLeft in *. simpl in *.
      replace (maxPages + 1 - 1) with maxPages in * by lia.
      repeat split; try assumption; try lia; discriminate.
    + exists new. unfold pagesLeft in *. simpl in *.
      replace (maxPages + 1 - 1) with maxPages in * by lia.
      repeat split; try assumption; try lia; discriminate.
  - exists []. simpl. rewrite app_nil_r.
    repeat split; try lia; try constructor; discriminate.
  - exists []. simpl. rewrite app_nil_r.
    repeat split; try lia; try constructor; discriminate.
Qed.

(** X8.  A run sends at most five requests per page below the ceiling, waits
    only for 300, 600, 1200 or 2400 ms (the cap of 4000 is never reached),
    for at most 4500 ms per page in all, and reports between 0 and
    [maxPages] pages; this holds whether it returns or throws. *)
Theorem fetchAllPatients_cost (env : Env) (server : Server) (limit maxPages : Z)
    (w : World) :
  exists new : list Z,
    waited (snd (fetchAllPatients env server limit maxPages w)) = waited w ++ new /\
    Forall (fun d => d ∈ [300; 600; 1200; 2400]) new /\
    total_ms new <= 4500 * Z.max 0 maxPages /\
    (requests w <= requests (snd (fetchAllPatients env server limit maxPages w))
     <= requests w + 5 * Z.to_nat maxPages)%nat /\
    forall r : FetchResult,
      fst (fetchAllPatients env server limit maxPages w) = Ok r ->
      0 <= r_pagesFetched r <= Z.max 0 maxPages /\ r_limit r = limit.
Proof. apply fetchAllPatients_bounds. Qed.

Lemma fetchAllPatients_cost_witness :
  0 <= 3 <= Z.max 0 3 /\ 5 = 5.
Proof.
  destruct (fetchAllPatients_cost keyed alwaysMore 5 3 startWorld)
    as (new & _ & _ & _ & _ & H).
  exact (H {| r_patients := [firstRecord; firstRecord; firstRecord];
              r_pagesFetched := 3; r_totalPages := 3; r_limit := 5 |} eq_refl).
Defined.

(** ** Runs that end on the first page *)

(** X9.  When the first answer is a success after which the rule asks for
    no further page, the run returns that page alone: its records, one page
    fetched, and as total the one it reports, else 1.  An empty first page
    without pagination data is such a page. *)
Theorem first_page_only (env : Env) (server : Server) (limit maxPages : Z)
    (w : World) (apiKey : string) (response : Response) (p : PatientsResponse) :
  getApiKey env = Ok apiKey ->
  1 <= maxPages ->
  server (requests w) (patientsRequest (buildPatientsUrl 1 limit) apiKey)
    = Responds response ->
  ok response = true ->
  json response = Some p ->
  nextPageWanted maxPages 1 None p = false ->
  fetchAllPatients env server limit maxPages w =
    (Ok {| r_patients := pageData p;
           r_pagesFetched := 1;
           r_totalPages := default 1 (pagination p ≫= pg_totalPages);
           r_limit := limit |},
     afterSend w).
Proof.
  intros Hkey Hmax Hs Hok Hj Hstop. unfold fetchAllPatients. rewrite Hkey.
  unfold await. destruct (Z.to_nat maxPages) as [| n] eqn:Hn; [lia |].
  rewrite pageLoop_turn.
  change (hasNext firstPage && (page firstPage <=? maxPages))
    with (1 <=? maxPages).
  destruct (Z.leb_spec 1 maxPages); [| lia].
  change (page firstPage) with 1.
  rewrite (fetchWithRetry_first_ok _ _ _ _ response Hs Hok), Hj.
  rewrite pageLoop_turn, advance_hasNext.
  change (page firstPage) with 1. change (totalPages firstPage) with (@None Z).
  rewrite Hstop. simpl. unfold pure. do 2 f_equal.
  unfold pageData. now destruct (pagination p ≫= pg_totalPages).
Qed.

Lemma first_page_only_witness :
  fetchAllPatients keyed (script [Responds emptyPage]) 5 10 startWorld =
    (Ok {| r_patients := []; r_pagesFetched := 1; r_totalPages := 1; r_limit := 5 |},
     {| requests := 1; waited := [] |}).
Proof.
  apply (first_page_only keyed (script [Responds emptyPage]) 5 10 startWorld "key"
           emptyPage {| data := Some []; pagination := None |});
    try reflexivity.
  discriminate.
Defined.

(** X10.  When the five attempts for the first page all fail, the run
    throws the error of the fifth attempt after five requests and the four
    delays; nothing is returned. *)
Theorem first_page_down (env : Env) (server : Server) (limit maxPages : Z)
    (w : World) (apiKey : string) :
  getApiKey env = Ok apiKey ->
  1 <= maxPages ->
  (forall j : nat, (j <= 4)%nat ->
     succeeded (server (requests w + j)%nat
                  (patientsRequest (buildPatientsUrl 1 limit) apiKey)) = false) ->
  fetchAllPatients env server limit maxPages w =
    (Throw (errorOf (server (requests w + 4)%nat
                       (patientsRequest (buildPatientsUrl 1 limit) apiKey))),
     {| requests := requests w + 5; waited := waited w ++ [300; 600; 1200; 2400] |}).
Proof.
  intros Hkey Hmax Hfail. unfold fetchAllPatients. rewrite Hkey.
  unfold await. destruct (Z.to_nat maxPages) as [| n] eqn:Hn; [lia |].
  rewrite pageLoop_turn.
  change (hasNext firstPage && (page firstPage <=? maxPages))
    with (1 <=? maxPages).
  destruct (Z.leb_spec 1 maxPages); [| lia].
  change (page firstPage) with 1.
  now rewrite (fetchWithRetry_gives_up server _ apiKey w Hfail).
Qed.

Lemma first_page_down_witness :
  fetchAllPatients keyed alwaysBusy 5 10 startWorld =
    (Throw (RequestFailed 429 "Too Many Requests"),
     {| requests := 5; waited := [300; 600; 1200; 2400] |}).
Proof.
  apply (first_page_down keyed alwaysBusy 5 10 startWorld "key").
  - reflexivity.
  - discriminate.
  - intros j Hj. reflexivity.
Defined.

(** ** The route [GET /api/patients] *)

Lemma fetchAllPatients_has_fuel (env : Env) (server : Server) (limit maxPages : Z)
    (w : World) :
  fst (fetchAllPatients env server limit maxPages w) <> OutOfFuel.
Proof.
  unfold fetchAllPatients.
  destruct (getApiKey env) as [apiKey | e |] eqn:Hkey.
  - unfold await.
    pose proof (pageLoop_fetched server apiKey limit maxPages
                  (S (Z.to_nat maxPages)) firstPage w) as H.
    destruct (pageLoop (S (Z.to_nat maxPages)) server apiKey limit maxPages firstPage w)
      as [[st' | e |] w']; try discriminate.
    exfalso. apply H. simpl. lia.
  - discriminate.
  - unfold getApiKey in Hkey. now destruct (falsy _).
Qed.

(** X11.  The route always answers: with status 500 and the cause exactly
    when the client threw, else with the records, their count, a limit in
    1..20 and a page count between 0 and the ceiling it parsed. *)
Theorem GET_always_answers (env : Env) (server : Server)
    (searchParams : SearchParams) (w : World) :
  exists reply : RouteReply,
    fst (GET env server searchParams w) = Ok reply /\
    snd (GET env server searchParams w) =
      snd (fetchAllPatients env server (clampLimit (sp_limit searchParams))
             (parseMaxPages (sp_maxPages searchParams)) w) /\
    match reply with
    | PatientsJson data count pagesFetched totalPages limit =>
        (exists r : FetchResult,
           fst (fetchAllPatients env server (clampLimit (sp_limit searchParams))
                  (parseMaxPages (sp_maxPages searchParams)) w) = Ok r /\
           data = r_patients r /\ totalPages = r_totalPages r) /\
        count = Z.of_nat (length data) /\
        1 <= limit <= 20 /\
        0 <= pagesFetched <= parseMaxPages (sp_maxPages searchParams)
    | ErrorJson status error cause =>
        status = 500 /\
        fst (fetchAllPatients env server (clampLimit (sp_limit searchParams))
               (parseMaxPages (sp_maxPages searchParams)) w) = Throw cause
    end.
Proof.
  unfold GET.
  pose proof (fetchAllPatients_has_fuel env server
                (clampLimit (sp_limit searchParams))
                (parseMaxPages (sp_maxPages searchParams)) w) as Hfuel.
  destruct (fetchAllPatients_bounds env server
                (clampLimit (sp_limit searchParams))
                (parseMaxPages (sp_maxPages searchParams)) w)
    as (_ & _ & _ & _ & _ & Hcount).
  pose proof (clampLimit_range (sp_limit searchParams)) as Hlimit.
  pose proof (parseMaxPages_range (sp_maxPages searchParams)) as Hmax.
  destruct (fetchAllPatients env server (clampLimit (sp_limit searchParams))
              (parseMaxPages (sp_maxPages searchParams)) w)
    as [[r | e |] w']; simpl in *.
  - eexists. split; [reflexivity |]. split; [reflexivity |].
    destruct (Hcount r eq_refl) as [Hpages Hl].
    split; [now exists r |]. split; [reflexivity |]. split; lia.
  - eexists. split; [reflexivity |]. split; [reflexivity |]. now split.
  - now destruct Hfuel.
Qed.

(** ** From the route to the page *)

Lemma normalizePatient_through_json (p : Raw.Patient) :
  normalizePatient (patientThroughJson p) = normalizePatient p.
Proof.
  unfold normalizePatient, patientThroughJson. simpl.
  assert (Hbp : parseBloodPressureReading (throughJson (Raw.blood_pressure p))
                = parseBloodPressureReading (Raw.blood_pressure p))
    by (destruct (Raw.blood_pressure p) as [| | | [| | |] | |]; reflexivity).
  assert (Ht : parseTemperatureValue (throughJson (Raw.temperature p))
               = parseTemperatureValue (Raw.temperature p))
    by (destruct (Raw.temperature p) as [| | | [| | |] | |]; reflexivity).
  assert (Ha : parseAgeValue (throughJson (Raw.age p)) = parseAgeValue (Raw.age p))
    by (destruct (Raw.age p) as [| | | [| | |] | |]; reflexivity).
  rewrite Hbp, Ht, Ha.
  destruct (Raw.patient_id p) as [| | | [| | |] | |];
    destruct (Raw.id p) as [| | | [| | |] | |]; reflexivity.
Qed.

Lemma visit_through_json (b : Buckets) (p : Raw.Patient) :
  visit b (patientThroughJson p) = visit b p.
Proof. unfold visit. now rewrite normalizePatient_through_json. Qed.

Lemma classify_through_json_eq (records : list Raw.Patient) :
  classify (patientThroughJson <$> records) = classify records.
Proof.
  unfold classify. f_equal. generalize noBuckets.
  induction records as [| r rs IH]; intros b; simpl; [reflexivity |].
  now rewrite visit_through_json, IH.
Qed.

(** X12.  Writing the records as JSON and reading them back, as happens
    between the route and the page, changes neither what a record
    normalizes to nor the alert lists. *)
Theorem classify_through_json (records : list Raw.Patient) :
  classify (patientThroughJson <$> records) = classify records /\
  Forall (fun p => normalizePatient (patientThroughJson p) = normalizePatient p)
         records.
Proof.
  split; [apply classify_through_json_eq |].
  apply Forall_forall. intros p _. apply normalizePatient_through_json.
Qed.

(** X13.  The page and the route together: when the client returns, the
    page shows the alert lists of the records it returned and no error;
    when the client throws, whatever the cause, the page keeps its alert
    lists and shows "Request failed: 500". *)
Theorem page_shows_fetch_result (env : Env) (server : Server) (w : World) (ui : Ui) :
  (forall r : FetchResult,
     fst (fetchAllPatients env server 20 10 w) = Ok r ->
     exists reply : RouteReply,
       fst (GET env server pageQuery w) = Ok reply /\
       fetchPatients (received reply) ui =
         {| alerts := classify (r_patients r); loadingPatients := false;
            patientError := None; submitResult := None |}) /\
  (forall e : Error,
     fst (fetchAllPatients env server 20 10 w) = Throw e ->
     exists reply : RouteReply,
       fst (GET env server pageQuery w) = Ok reply /\
       fetchPatients (received reply) ui =
         {| alerts := alerts ui; loadingPatients := false;
            patientError := Some "Request failed: 500"; submitResult := None |}).
Proof.
  unfold GET.
  change (clampLimit (sp_limit pageQuery)) with 20.
  change (parseMaxPages (sp_maxPages pageQuery)) with 10.
  destruct (fetchAllPatients env server 20 10 w) as [[r | e |] w']; simpl;
    split; try discriminate.
  - intros r' [= <-]. eexists. split; [reflexivity |].
    unfold received, fetchPatients. simpl.
    now rewrite classify_through_json_eq.
  - intros e' [= <-]. eexists. split; reflexivity.
Qed.

Lemma page_shows_fetch_result_witness :
  (exists reply : RouteReply,
     fst (GET keyed totalOnlyOnce pageQuery startWorld) = Ok reply /\
     fetchPatients (received reply)
       {| alerts := classify []; loadingPatients := true;
          patientError := None; submitResult := None |} =
       {| alerts := classify [firstRecord]; loadingPatients := false;
          patientError := None; submitResult := None |}) /\
  (exists reply : RouteReply,
     fst (GET keyed alwaysBusy pageQuery startWorld) = Ok reply /\
     fetchPatients (received reply)
       {| alerts := classify []; loadingPatients := true;
          patientError := None; submitResult := None |} =
       {| alerts := classify []; loadingPatients := false;
          patientError := Some "Request failed: 500"; submitResult := None |}).
Proof.
  split.
  - exact (proj1 (page_shows_fetch_result keyed totalOnlyOnce startWorld _)
             {| r_patients := [firstRecord]; r_pagesFetched := 3;
                r_totalPages := 3; r_limit := 20 |} eq_refl).
  - exact (proj2 (page_shows_fetch_result keyed alwaysBusy startWorld _)
             (RequestFailed 429 "Too Many Requests") eq_refl).
Defined.

(** ** More on the normalized patient and the alert lists *)

(** X14.  The scores of a normalized patient: the total is their sum and
    lies in 0..8, each score stays in its range, and a vital that failed to
    parse scores 0. *)
Theorem normalized_scores (r : Raw.Patient) (n : Norm.Patient) :
  normalizePatient r = Some n ->
  Norm.total n = Norm.bpScore n + Norm.tempScore n + Norm.ageScore n /\
  0 <= Norm.bpScore n <= 4 /\ 0 <= Norm.tempScore n <= 2 /\
  0 <= Norm.ageScore n <= 2 /\ 0 <= Norm.total n <= 8 /\
  (valid (parseBloodPressureReading (Raw.blood_pressure r)) = false ->
   Norm.bpScore n = 0) /\
  (parseTemperatureValue (Raw.temperature r) = None -> Norm.tempScore n = 0) /\
  (parseAgeValue (Raw.age r) = None -> Norm.ageScore n = 0).
Proof.
  unfold normalizePatient. destruct (falsy _); [discriminate |].
  intros [= <-]. simpl.
  set (bp := parseBloodPressureReading (Raw.blood_pressure r)).
  assert (Hbp : 0 <= (if valid bp
                      then getBloodPressureScore (default "" (systolic bp))
                             (default "" (diastolic bp))
                      else 0) <= 4).
  { destruct (valid bp); [apply blood_pressure_score_range | lia]. }
  pose proof (temperature_score_range
                (default "" (Text.String_of_number
                               <$> parseTemperatureValue (Raw.temperature r)))) as Ht.
  pose proof (age_score_range
                (default "" (Text.String_of_number
                               <$> parseAgeValue (Raw.age r)))) as Ha.
  split; [reflexivity |]. split; [exact Hbp |]. split; [exact Ht |].
  split; [exact Ha |]. split; [lia |]. split; [| split].
  - now intros ->.
  - now intros ->.
  - now intros ->.
Qed.

Lemma normalized_scores_witness :
  (Norm.bpScore <$> normalizePatient laterDuplicate) = Some 0.
Proof.
  destruct (normalizePatient laterDuplicate) as [n |] eqn:Hn.
  - simpl. f_equal.
    apply (proj1 (proj2 (proj2 (proj2 (proj2 (proj2
             (normalized_scores laterDuplicate n Hn))))))).
    reflexivity.
  - discriminate Hn.
Defined.

(** X15.  An id is in the high-risk list exactly when the first record with
    that id has a total of at least 4. *)
Theorem high_risk_set (records : list Raw.Patient) (i : string) :
  i ∈ highRisk (classify records) ↔
  ∃ r n, firstOf i records = Some r ∧ normalizePatient r = Some n
         ∧ 4 <= Norm.bpScore n + Norm.tempScore n + Norm.ageScore n.
Proof.
  rewrite classify_highRisk. unfold isHighRisk.
  split; intros (r & n & Hf & Hn & Ht); exists r, n;
    (split; [exact Hf |]); (split; [exact Hn |]);
    assert (Hsum : Norm.total n
                   = Norm.bpScore n + Norm.tempScore n + Norm.ageScore n)
      by (unfold normalizePatient in Hn; destruct (falsy _); [discriminate |];
          now injection Hn as <-).
  - apply Z.leb_le in Ht. lia.
  - apply Z.leb_le. lia.
Qed.

Lemma listed_ids_counted (records : list Raw.Patient) (l : list string) :
  NoDup l -> (forall i, i ∈ l -> i ∈ resolvedIds records) ->
  (length l <= totalPatients (classify records))%nat.
Proof.
  intros Hnd Hsub. rewrite classify_total.
  apply submseteq_length, NoDup_submseteq; [exact Hnd |].
  intros i Hi. apply elem_of_remove_dups. now apply Hsub.
Qed.

Lemma firstOf_resolved (i : string) (records : list Raw.Patient) (r : Raw.Patient) :
  firstOf i records = Some r -> i ∈ resolvedIds records.
Proof.
  intros [Hin Hid]%firstOf_elem. apply list_elem_of_omap. now exists r.
Qed.

(** X16.  No alert list is longer than the number of patients seen. *)
Theorem alert_lists_within_total (records : list Raw.Patient) :
  (length (highRisk (classify records)) <= totalPatients (classify records))%nat /\
  (length (fever (classify records)) <= totalPatients (classify records))%nat /\
  (length (dataQuality (classify records)) <= totalPatients (classify records))%nat.
Proof.
  split; [| split]; apply listed_ids_counted.
  - apply (fold_visit_bucket_NoDup b_highRisk isHighRisk highRisk_visit);
      [apply NoDup_nil_2 | set_solver].
  - intros i (r & n & Hf & _)%classify_highRisk. now apply firstOf_resolved with r.
  - apply (fold_visit_bucket_NoDup b_fever isFever fever_visit);
      [apply NoDup_nil_2 | set_solver].
  - intros i (r & n & Hf & _)%classify_fever. now apply firstOf_resolved with r.
  - apply (fold_visit_bucket_NoDup b_dataQuality Norm.hasInvalid dataQuality_visit);
      [apply NoDup_nil_2 | set_solver].
  - intros i (r & n & Hf & _)%classify_dataQuality. now apply firstOf_resolved with r.
Qed.

Section BucketGrowth.

Variable bucket : Buckets -> list string.
Variable test : Norm.Patient -> bool.

Hypothesis bucket_visit : forall (b : Buckets) (r : Raw.Patient) (n : Norm.Patient),
  normalizePatient r = Some n -> Norm.id n ∉ seen b ->
  bucket (visit b r) = if test n then bucket b ++ [Norm.id n] else bucket b.

Lemma visit_extends (b : Buckets) (r : Raw.Patient) :
  bucket b `prefix_of` bucket (visit b r).
Proof.
  destruct (normalizePatient r) as [n |] eqn:Hn.
  - destruct (decide (Norm.id n ∈ seen b)) as [Hin | Hout].
    + now rewrite (visit_seen_before b r n Hn Hin).
    + rewrite (bucket_visit b r n Hn Hout).
      destruct (test n); [apply prefix_app_r |]; reflexivity.
  - now rewrite (visit_no_id b r Hn).
Qed.

Lemma fold_visit_extends (records : list Raw.Patient) (b : Buckets) :
  bucket b `prefix_of` bucket (fold_left visit records b).
Proof.
  revert b. induction records as [| r rs IH]; intros b; simpl; [reflexivity |].
  etransitivity; [apply visit_extends | apply IH].
Qed.

End BucketGrowth.

(** X17.  Records that follow never undo what the earlier ones decided: the
    alert lists of a batch begin with the alert lists of each of its
    beginnings, and the number of patients seen does not go down. *)
Theorem alerts_only_grow (earlier later : list Raw.Patient) :
  highRisk (classify earlier) `prefix_of` highRisk (classify (earlier ++ later)) /\
  fever (classify earlier) `prefix_of` fever (classify (earlier ++ later)) /\
  dataQuality (classify earlier) `prefix_of` dataQuality (classify (earlier ++ later)) /\
  (totalPatients (classify earlier) <= totalPatients (classify (earlier ++ later)))%nat.
Proof.
  unfold classify. rewrite fold_left_app. simpl.
  split; [apply (fold_visit_extends b_highRisk isHighRisk highRisk_visit) |].
  split; [apply (fold_visit_extends b_fever isFever fever_visit) |].
  split; [apply (fold_visit_extends b_dataQuality Norm.hasInvalid dataQuality_visit) |].
  rewrite (fold_visit_seen later). apply subseteq_size. set_solver.
Qed.

(** ** Trimming and the ids forwarded by the route *)

Lemma trimStart_clean (cs : list ascii) : clean (Text.trimStart cs).
Proof.
  induction cs as [| c cs IH]; simpl; [exact I |].
  destruct (Text.isWhiteSpace c) eqn:E; [exact IH | exact E].
Qed.

Lemma trimStart_of_clean (cs : list ascii) : clean cs -> Text.trimStart cs = cs.
Proof. destruct cs as [| c cs]; simpl; [reflexivity |]. now intros ->. Qed.

Lemma trimStart_suffix (cs : list ascii) :
  exists pre : list ascii, cs = pre ++ Text.trimStart cs.
Proof.
  induction cs as [| c cs [pre IH]]; simpl; [now exists [] |].
  destruct (Text.isWhiteSpace c); [| now exists []].
  exists (c :: pre). simpl. now rewrite <- IH.
Qed.

Lemma clean_prefix (a b : list ascii) : clean (a ++ b) -> a <> [] -> clean a.
Proof. destruct a as [| c a]; [congruence | now simpl]. Qed.

Lemma trimChars_idempotent (cs : list ascii) :
  Text.trimChars (Text.trimChars cs) = Text.trimChars cs.
Proof.
  unfold Text.trimChars.
  set (a := Text.trimStart cs). set (b := Text.trimStart (rev a)).
  assert (Ha : clean a) by apply trimStart_clean.
  assert (Hb : clean b) by apply trimStart_clean.
  assert (Hrb : clean (rev b)).
  { destruct (trimStart_suffix (rev a)) as [pre Hpre]. fold b in Hpre.
    assert (Ha' : a = rev b ++ rev pre)
      by (rewrite <- rev_app_distr, <- Hpre; now rewrite rev_involutive).
    destruct (rev b) as [| c x] eqn:E; [exact I |].
    rewrite Ha' in Ha. exact Ha. }
  rewrite (trimStart_of_clean (rev b) Hrb), rev_involutive.
  now rewrite (trimStart_of_clean b Hb).
Qed.

Lemma trim_idempotent (s : string) : Text.trim (Text.trim s) = Text.trim s.
Proof.
  unfold Text.trim.
  now rewrite list_ascii_of_string_of_list_ascii, trimChars_idempotent.
Qed.

Lemma omap_strings (ids : list string) :
  omap stringEntry (JString <$> ids) = ids.
Proof. induction ids as [| i ids IH]; csimpl; [reflexivity |]. now rewrite IH. Qed.

Lemma omap_stringEntry_length (entries : list jsval) :
  (length (omap stringEntry entries) <= length entries)%nat.
Proof.
  induction entries as [| e entries IH]; csimpl; [lia |].
  destruct (stringEntry e); simpl; lia.
Qed.

Lemma normalizeIds_of_strings (ids : list string) :
  normalizeIds (Some (JString <$> ids)) = filter (λ id, id ≠ "") (Text.trim <$> ids).
Proof. unfold normalizeIds. now rewrite omap_strings. Qed.

Lemma normalizeIds_keeps_clean (ids : list string) :
  Forall (λ id, id ≠ "" ∧ Text.trim id = id) ids ->
  normalizeIds (Some (JString <$> ids)) = ids.
Proof.
  intros H. rewrite normalizeIds_of_strings.
  induction H as [| i ids [Hne Ht] _ IH]; [reflexivity |].
  rewrite fmap_cons, Ht, filter_cons_True by exact Hne. now rewrite IH.
Qed.

Lemma normalizeIds_clean (value : option (list jsval)) :
  Forall (λ id, id ≠ "" ∧ Text.trim id = id) (normalizeIds value).
Proof.
  destruct value as [entries |]; simpl; [| constructor].
  apply Forall_forall. intros id [Hne Hin]%list_elem_of_filter.
  split; [exact Hne |].
  apply list_elem_of_fmap in Hin as (s & -> & _). apply trim_idempotent.
Qed.

(** X18.  The ids the route forwards are trimmed and not empty; entries
    that are not strings are dropped, so the list never gets longer; a list
    of ids that are already trimmed and not empty passes unchanged, hence
    normalizing twice changes nothing more. *)
Theorem normalizeIds_normal_form (value : option (list jsval)) :
  Forall (λ id, id ≠ "" ∧ Text.trim id = id) (normalizeIds value) ∧
  (∀ entries, value = Some entries →
     (length (normalizeIds value) <= length entries)%nat) ∧
  (∀ ids, value = Some (JString <$> ids) →
     Forall (λ id, id ≠ "" ∧ Text.trim id = id) ids → normalizeIds value = ids) ∧
  normalizeIds (Some (JString <$> normalizeIds value)) = normalizeIds value.
Proof.
  split; [apply normalizeIds_clean |]. split; [| split].
  - intros entries ->. unfold normalizeIds.
    etransitivity; [apply length_filter |].
    rewrite length_fmap. apply omap_stringEntry_length.
  - intros ids -> H. now apply normalizeIds_keeps_clean.
  - apply normalizeIds_keeps_clean, normalizeIds_clean.
Qed.

Lemma normalizeIds_normal_form_witness :
  (length (normalizeIds (Some [JString " DEMO001 "; JNumber (Finite 7); JString "  "]))
   <= 3)%nat /\
  normalizeIds (Some (JString <$> ["DEMO001"; "DEMO002"])) = ["DEMO001"; "DEMO002"].
Proof.
  split.
  - exact (proj1 (proj2 (normalizeIds_normal_form _))
             [JString " DEMO001 "; JNumber (Finite 7); JString "  "] eq_refl).
  - apply (proj1 (proj2 (proj2 (normalizeIds_normal_form _)))
             ["DEMO001"; "DEMO002"] eq_refl).
    repeat constructor; discriminate.
Defined.

(** ** Submitting *)

Lemma resolvedId_not_empty (r : Raw.Patient) (i : string) :
  resolvedId r = Some i -> i ≠ "".
Proof.
  unfold resolvedId, normalizePatient.
  destruct (Raw.patient_id r) as [| | | | s |];
    try (destruct (Raw.id r) as [| | | | s |]); simpl; try discriminate;
    case_bool_decide; simpl; try discriminate; now intros [= <-].
Qed.

Lemma alert_ids_clean (records : list Raw.Patient) (l : list string) :
  (forall i, i ∈ l -> i ∈ resolvedIds records) ->
  Forall (λ i, Text.trim i = i) (resolvedIds records) ->
  Forall (λ id, id ≠ "" ∧ Text.trim id = id) l.
Proof.
  intros Hsub Htrim. apply Forall_forall. intros i Hi.
  specialize (Hsub i Hi). split.
  - apply list_elem_of_omap in Hsub as (r & _ & Hr).
    now apply resolvedId_not_empty with r.
  - now apply (proj1 (Forall_forall _ _) Htrim).
Qed.

(** X19.  What the route hands on to the remote service for the body the
    page posts: each list trimmed, with the ids that are blank left out.
    When the ids of the batch carry no white space at their ends, that is
    exactly the three alert lists. *)
Theorem alerts_reach_upstream (records : list Raw.Patient) :
  (∀ payload : AssessmentPayload,
     POST_payload (postedBody payload) =
       {| high_risk_patients :=
            filter (λ id, id ≠ "") (Text.trim <$> high_risk_patients payload);
          fever_patients :=
            filter (λ id, id ≠ "") (Text.trim <$> fever_patients payload);
          data_quality_issues :=
            filter (λ id, id ≠ "") (Text.trim <$> data_quality_issues payload) |}) ∧
  (Forall (λ i, Text.trim i = i) (resolvedIds records) →
   POST_payload (postedBody (alertsPayload (classify records)))
     = alertsPayload (classify records)).
Proof.
  split.
  - intros payload. unfold POST_payload, postedBody.
    cbn [body_high_risk_patients body_fever_patients body_data_quality_issues].
    now rewrite !normalizeIds_of_strings.
  - intros Htrim. unfold POST_payload, postedBody, alertsPayload.
    cbn [body_high_risk_patients body_fever_patients body_data_quality_issues
         high_risk_patients fever_patients data_quality_issues].
    rewrite !normalizeIds_keeps_clean; [reflexivity | | |];
      apply (alert_ids_clean records); try exact Htrim.
    + intros i (r & n & Hf & _)%classify_dataQuality. now apply firstOf_resolved with r.
    + intros i (r & n & Hf & _)%classify_fever. now apply firstOf_resolved with r.
    + intros i (r & n & Hf & _)%classify_highRisk. now apply firstOf_resolved with r.
Qed.

Lemma alerts_reach_upstream_witness :
  POST_payload (postedBody (alertsPayload (classify [firstRecord; badPressurePatient])))
    = alertsPayload (classify [firstRecord; badPressurePatient]).
Proof.
  apply (proj2 (alerts_reach_upstream [firstRecord; badPressurePatient])).
  repeat constructor.
Defined.

Lemma classify_none_seen (records : list Raw.Patient) :
  totalPatients (classify records) = 0%nat ↔ resolvedIds records = [].
Proof.
  rewrite classify_total. split.
  - intros H. destruct (resolvedIds records) as [| i ids] eqn:E; [reflexivity |].
    assert (Hin : i ∈ remove_dups (i :: ids))
      by (apply elem_of_remove_dups; left).
    destruct (remove_dups (i :: ids)); [inversion Hin | discriminate].
  - now intros ->.
Qed.

Lemma fetchPatients_success (status : Z) (records : list Raw.Patient) (ui : Ui) :
  200 <= status <= 299 ->
  fetchPatients (Replied status (Payload (Some records))) ui =
    {| alerts := classify records; loadingPatients := false;
       patientError := None; submitResult := None |}.
Proof.
  intros Hst. unfold fetchPatients.
  destruct (Z.leb_spec 200 status); [| lia].
  destruct (Z.leb_spec status 299); [| lia]. reflexivity.
Qed.

(** X20.  After a fetch that succeeded, a click on submit posts nothing and
    asks to fetch first exactly when no record of the batch had a usable
    id; otherwise it posts one body, the three alert lists of the batch. *)
Theorem submit_after_fetch (post : AssessmentPayload -> SubmitReply)
    (status : Z) (records : list Raw.Patient) (ui : Ui) :
  200 <= status <= 299 ->
  (resolvedIds records = [] ->
   snd (submitAlerts post (fetchPatients (Replied status (Payload (Some records))) ui))
     = [] /\
   submitResult
     (fst (submitAlerts post
             (fetchPatients (Replied status (Payload (Some records))) ui)))
     = Some (false, "Fetch patients before submitting.")) /\
  (resolvedIds records <> [] ->
   snd (submitAlerts post (fetchPatients (Replied status (Payload (Some records))) ui))
     = [alertsPayload (classify records)]).
Proof.
  intros Hst. rewrite (fetchPatients_success status records ui Hst).
  unfold submitAlerts. cbn [alerts]. split.
  - intros Hnone%classify_none_seen. rewrite Hnone. now split.
  - intros Hsome. destruct (totalPatients (classify records)) eqn:E; [| reflexivity].
    now apply classify_none_seen in E.
Qed.

Lemma submit_after_fetch_witness :
  snd (submitAlerts (λ _, SubmitRejected "offline")
         (fetchPatients (Replied 200 (Payload (Some [firstRecord])))
            {| alerts := classify []; loadingPatients := false;
               patientError := None; submitResult := None |}))
    = [alertsPayload (classify [firstRecord])] /\
  snd (submitAlerts (λ _, SubmitRejected "offline")
         (fetchPatients (Replied 200 (Payload (Some [])))
            {| alerts := classify []; loadingPatients := false;
               patientError := None; submitResult := None |}))
    = [].
Proof.
  split.
  - apply (proj2 (submit_after_fetch _ 200 [firstRecord] _ ltac:(split; discriminate))).
    discriminate.
  - apply (proj1 (submit_after_fetch _ 200 [] _ ltac:(split; discriminate))).
    reflexivity.
Defined.

(** X21.  A fetch that fails (the request rejected, a status outside
    200..299, or a body that is not JSON) reports an error and leaves the
    alert lists as they were, so a later click on submit posts what an
    earlier fetch found. *)
Theorem failed_fetch_keeps_alerts (post : AssessmentPayload -> SubmitReply)
    (reply : Reply) (ui : Ui) :
  refreshFailed reply = true ->
  alerts (fetchPatients reply ui) = alerts ui /\
  patientError (fetchPatients reply ui) <> None /\
  snd (submitAlerts post (fetchPatients reply ui)) = snd (submitAlerts post ui).
Proof.
  intros Hfail.
  assert (Hkeep : alerts (fetchPatients reply ui) = alerts ui
                  /\ patientError (fetchPatients reply ui) <> None).
  { unfold fetchPatients, refreshFailed in *.
    destruct reply as [message | status json]; [now split |].
    destruct (negb ((200 <=? status) && (status <=? 299))); [now split |].
    destruct json; [now split | discriminate]. }
  destruct Hkeep as [Ha He]. split; [exact Ha |]. split; [exact He |].
  unfold submitAlerts. rewrite Ha.
  now destruct (totalPatients (alerts ui)).
Qed.

Lemma failed_fetch_keeps_alerts_witness :
  snd (submitAlerts (λ _, SubmitRejected "offline")
         (fetchPatients (Replied 500 (Payload None))
            {| alerts := classify [firstRecord]; loadingPatients := false;
               patientError := None; submitResult := None |}))
    = [alertsPayload (classify [firstRecord])].
Proof.
  exact (proj2 (proj2 (failed_fetch_keeps_alerts (λ _, SubmitRejected "offline")
                         (Replied 500 (Payload None))
                         {| alerts := classify [firstRecord]; loadingPatients := false;
                            patientError := None; submitResult := None |}
                         eq_refl))).
Defined.

(** ** Reading a blood pressure *)

Lemma splitChars_without (sep : ascii) (cs : list ascii) :
  existsb (Ascii.eqb sep) cs = false -> Text.splitChars sep cs = [cs].
Proof.
  induction cs as [| c cs IH]; simpl; [reflexivity |].
  intros [Hc Hcs]%orb_false_iff. rewrite Ascii.eqb_sym, Hc.
  now rewrite (IH Hcs).
Qed.

Lemma splitChars_with (sep : ascii) (cs : list ascii) :
  existsb (Ascii.eqb sep) cs = true ->
  exists a b rest, Text.splitChars sep cs = a :: b :: rest.
Proof.
  induction cs as [| c cs IH]; simpl; [discriminate |].
  rewrite (Ascii.eqb_sym sep c). destruct (Ascii.eqb c sep).
  - intros _. destruct cs as [| c' cs']; simpl; [now exists [], [], [] |].
    destruct (Ascii.eqb c' sep); [now eexists [], [], _ |].
    destruct (Text.splitChars sep cs'); now eexists [], _, _.
  - simpl. intros (a & b & rest & ->)%IH. now exists (c :: a), b, rest.
Qed.

Lemma split_cases (sep : ascii) (s : string) :
  if Text.includes sep s
  then exists a b rest, Text.split sep s = a :: b :: rest
  else exists a, Text.split sep s = [a].
Proof.
  unfold Text.includes, Text.split.
  destruct (existsb (Ascii.eqb sep) (list_ascii_of_string s)) eqn:E.
  - destruct (splitChars_with sep _ E) as (a & b & rest & ->).
    simpl. now eexists _, _, _.
  - rewrite (splitChars_without sep _ E). simpl. now eexists.
Qed.

Lemma parseNumber_empty : parseNumber "" = None.
Proof. reflexivity. Qed.

Lemma reading_of_parts (s a b : string) (rest : list string) (x y : Q) :
  Text.split "/" (Text.trim s) = a :: b :: rest ->
  parseNumber a = Some x -> parseNumber b = Some y ->
  parseBloodPressureReading (JString s) =
    {| systolic := Some (Text.String_of_number x);
       diastolic := Some (Text.String_of_number y);
       valid := true |}.
Proof.
  intros Hsplit Ha Hb. unfold parseBloodPressureReading.
  pose proof (split_cases "/" (Text.trim s)) as Hc.
  destruct (Text.includes "/" (Text.trim s)).
  - rewrite Hsplit. simpl.
    assert (Hna : bool_decide (a = "") = false).
    { apply bool_decide_eq_false. intros ->. now rewrite parseNumber_empty in Ha. }
    assert (Hnb : bool_decide (b = "") = false).
    { apply bool_decide_eq_false. intros ->. now rewrite parseNumber_empty in Hb. }
    rewrite Hna, Hnb, Ha, Hb. reflexivity.
  - destruct Hc as [c Hc]. rewrite Hc in Hsplit. discriminate.
Qed.

Lemma reading_valid_inv (raw : jsval) :
  valid (parseBloodPressureReading raw) = true ->
  ∃ s a b rest x y,
    raw = JString s ∧ Text.split "/" (Text.trim s) = a :: b :: rest
    ∧ parseNumber a = Some x ∧ parseNumber b = Some y.
Proof.
  unfold parseBloodPressureReading. destruct raw as [| | | | s |]; try discriminate.
  pose proof (split_cases "/" (Text.trim s)) as Hc.
  destruct (Text.includes "/" (Text.trim s)); cbn [negb]; [| discriminate].
  destruct Hc as (a & b & rest & Hsplit). rewrite Hsplit. simpl.
  destruct (bool_decide (a = "") || bool_decide (b = "")); [discriminate |].
  cbn [valid].
  destruct (parseNumber a) as [x |] eqn:Ha; [| discriminate].
  destruct (parseNumber b) as [y |] eqn:Hb; [| discriminate].
  intros _. now exists s, a, b, rest, x, y.
Qed.

Lemma reading_invalid (raw : jsval) :
  valid (parseBloodPressureReading raw) = false ->
  parseBloodPressureReading raw = noReading.
Proof.
  unfold parseBloodPressureReading. destruct raw; try reflexivity.
  destruct (negb (Text.includes "/" (Text.trim s))); [reflexivity |].
  destruct (falsy _ || falsy _); [reflexivity |].
  cbn [valid]. now intros ->.
Qed.

(** X22.  A blood pressure is valid exactly when it is a string whose
    trimmed text has at least two parts around "/" and the first two parse
    as numbers; further parts are not looked at.  A valid reading carries
    the two numbers written out again, an invalid one carries nothing. *)
Theorem blood_pressure_reading (raw : jsval) :
  (valid (parseBloodPressureReading raw) = true ↔
   ∃ s a b rest x y,
     raw = JString s ∧ Text.split "/" (Text.trim s) = a :: b :: rest
     ∧ parseNumber a = Some x ∧ parseNumber b = Some y) ∧
  (∀ s a b rest x y,
     raw = JString s → Text.split "/" (Text.trim s) = a :: b :: rest →
     parseNumber a = Some x → parseNumber b = Some y →
     parseBloodPressureReading raw =
       {| systolic := Some (Text.String_of_number x);
          diastolic := Some (Text.String_of_number y);
          valid := true |}) ∧
  (valid (parseBloodPressureReading raw) = false →
   parseBloodPressureReading raw = noReading).
Proof.
  split; [| split].
  - split; [apply reading_valid_inv |].
    intros (s & a & b & rest & x & y & -> & Hsplit & Ha & Hb).
    now rewrite (reading_of_parts s a b rest x y Hsplit Ha Hb).
  - intros s a b rest x y ->. apply reading_of_parts.
  - apply reading_invalid.
Qed.

Lemma blood_pressure_reading_witness :
  parseBloodPressureReading (JString " 120/80/7 ") =
    {| systolic := Some "120"; diastolic := Some "80"; valid := true |} /\
  parseBloodPressureReading (JString "120/") = noReading.
Proof.
  split.
  - exact (proj1 (proj2 (blood_pressure_reading (JString " 120/80/7 ")))
             " 120/80/7 " "120" "80" ["7"] 120%Q 80%Q
             eq_refl eq_refl eq_refl eq_refl).
  - apply (proj2 (proj2 (blood_pressure_reading (JString "120/")))).
    reflexivity.
Defined.

(** ** Writing a number out and reading it back *)

Lemma chars_app (s1 s2 : string) :
  list_ascii_of_string (s1 +:+ s2)
  = list_ascii_of_string s1 ++ list_ascii_of_string s2.
Proof. induction s1 as [| c s1 IH]; simpl; [reflexivity |]. now rewrite IH. Qed.

Lemma chars_substring (s : string) :
  forall a len : nat,
    list_ascii_of_string (substring a len s)
    = take len (drop a (list_ascii_of_string s)).
Proof.
  induction s as [| c s IH]; intros [| a] [| len]; simpl; try reflexivity.
  - now rewrite IH.
  - now rewrite IH.
  - now rewrite IH.
Qed.

Lemma chars_length (s : string) :
  length (list_ascii_of_string s) = String.length s.
Proof. induction s as [| c s IH]; simpl; [reflexivity |]. now rewrite IH. Qed.

Lemma fromDigits_valN (ds : list N) : Text.fromDigits 10 ds = Z.of_N (valN ds).
Proof. reflexivity. Qed.

Lemma valN_snoc (ds : list N) (d : N) : valN (ds ++ [d]) = (valN ds * 10 + d)%N.
Proof. unfold valN. now rewrite fold_left_app. Qed.

Lemma fold_digits_from (ds : list N) (acc : N) :
  fold_left (fun acc d => (acc * 10 + d)%N) ds acc
  = (acc * 10 ^ N.of_nat (length ds) + valN ds)%N.
Proof.
  unfold valN. revert acc. induction ds as [| d ds IH]; intros acc.
  - simpl. lia.
  - cbn [fold_left length]. rewrite IH, (IH (0 * 10 + d)%N).
    rewrite Nat2N.inj_succ, N.pow_succ_r'. lia.
Qed.

Lemma valN_app (a b : list N) :
  valN (a ++ b) = (valN a * 10 ^ N.of_nat (length b) + valN b)%N.
Proof. unfold valN at 1. rewrite fold_left_app. apply fold_digits_from. Qed.

Lemma valN_zeros (k : nat) : valN (repeat 0%N k) = 0%N.
Proof.
  induction k as [| k IH]; [reflexivity |].
  change (repeat 0%N (S k)) with ([0%N] ++ repeat 0%N k).
  rewrite valN_app, IH. reflexivity.
Qed.

Lemma digitsOf_zeros (k : nat) : digitsOf (repeat "0"%char k) (repeat 0%N k).
Proof.
  induction k as [| k IH]; simpl.
  - constructor.
  - constructor; [reflexivity | exact IH].
Qed.

Lemma digitsOf_length (cs : list ascii) (ds : list N) :
  digitsOf cs ds -> length cs = length ds.
Proof. apply Forall2_length. Qed.

Lemma pretty_N_char_digit (d : N) :
  (d < 10)%N -> Text.digitValue 10 (pretty_N_char d) = Some d.
Proof.
  intros H.
  assert (C : (d = 0 \/ d = 1 \/ d = 2 \/ d = 3 \/ d = 4 \/ d = 5 \/ d = 6
               \/ d = 7 \/ d = 8 \/ d = 9)%N) by lia.
  repeat (destruct C as [-> | C]; [reflexivity |]). now subst.
Qed.

Lemma pretty_N_go_chars (x : N) :
  forall s : string,
    exists (cs : list ascii) (ds : list N),
      list_ascii_of_string (pretty_N_go x s) = cs ++ list_ascii_of_string s /\
      digitsOf cs ds /\ valN ds = x /\ ((0 < x)%N -> cs <> []).
Proof.
  induction (N.lt_wf_0 x) as [x _ IH]. intros s.
  destruct (N.eq_dec x 0%N) as [-> | Hx].
  - exists [], []. rewrite pretty_N_go_0. repeat split; try constructor. lia.
  - rewrite pretty_N_go_step by lia.
    destruct (IH (x `div` 10)%N ltac:(apply N.div_lt; lia)
                (String (pretty_N_char (x `mod` 10)) s))
      as (cs & ds & Hcs & Hd & Hv & _).
    exists (cs ++ [pretty_N_char (x `mod` 10)]), (ds ++ [x `mod` 10])%N.
    split; [rewrite Hcs; simpl; now rewrite <- app_assoc |].
    split; [| split].
    + apply Forall2_app; [exact Hd |]. constructor; [| constructor].
      apply pretty_N_char_digit. apply N.mod_lt. lia.
    + rewrite valN_snoc, Hv. rewrite (N.div_mod x 10) at 3 by lia. lia.
    + intros _. now destruct cs.
Qed.

Lemma pretty_N_chars (n : N) :
  exists (cs : list ascii) (ds : list N),
    list_ascii_of_string (pretty n) = cs /\ digitsOf cs ds /\ valN ds = n /\ cs <> [].
Proof.
  unfold pretty, pretty_N. destruct (decide (n = 0%N)) as [-> | Hn].
  - exists ["0"%char], [0%N]. repeat split; try discriminate.
    repeat constructor.
  - destruct (pretty_N_go_chars n "") as (cs & ds & Hcs & Hd & Hv & Hne).
    exists cs, ds. simpl in Hcs. rewrite app_nil_r in Hcs.
    repeat split; try assumption. apply Hne. lia.
Qed.

Lemma takeDigits_digits (cs : list ascii) (ds : list N) (rest : list ascii) :
  digitsOf cs ds -> stops rest -> Text.takeDigits 10 (cs ++ rest) = (ds, rest).
Proof.
  intros H Hrest. induction H as [| c d cs ds Hc _ IH]; simpl.
  - destruct rest as [| c rest]; [reflexivity |]. simpl in *. now rewrite Hrest.
  - now rewrite Hc, IH.
Qed.

Lemma parseExponent_written (neg : bool) (E : list ascii) (dsE : list N) :
  digitsOf E dsE -> E <> [] ->
  Text.parseExponent ("e"%char :: (if neg then "-"%char else "+"%char) :: E)
  = Some ((if neg then -1 else 1) * Text.fromDigits 10 dsE).
Proof.
  intros HE Hne.
  pose proof (takeDigits_digits E dsE [] HE I) as Ht. rewrite app_nil_r in Ht.
  assert (Hds : dsE <> []).
  { intros ->. apply Forall2_nil_inv_r in HE. contradiction. }
  unfold Text.parseExponent. destruct neg; simpl; rewrite Ht;
    destruct dsE; congruence.
Qed.

Lemma exponentStart_stops (X : list ascii) : exponentStart X -> stops X.
Proof. intros [-> | [X' ->]]; [exact I | reflexivity]. Qed.

Lemma parseUnsignedDecimal_written (I F X : list ascii) (dsI dsF : list N)
    (dot : bool) (ex : Z) :
  digitsOf I dsI -> digitsOf F dsF -> (dot = false -> F = []) ->
  dsI ++ dsF <> [] -> exponentStart X -> Text.parseExponent X = Some ex ->
  Text.parseUnsignedDecimal (I ++ (if dot then "."%char :: F else []) ++ X)
  = Some (inject_Z (Text.fromDigits 10 (dsI ++ dsF))
          * Text.pow10 (ex - Z.of_nat (length dsF)))%Q.
Proof.
  intros HI HF Hdot Hne HX Hex. unfold Text.parseUnsignedDecimal.
  destruct dot.
  - rewrite (takeDigits_digits I dsI _ HI) by reflexivity.
    cbn [app]. rewrite (takeDigits_digits F dsF X HF (exponentStart_stops X HX)).
    rewrite Hex. destruct (dsI ++ dsF) eqn:E; [contradiction | reflexivity].
  - rewrite (Hdot eq_refl) in *. apply Forall2_nil_inv_l in HF. subst dsF.
    cbn [app]. rewrite (takeDigits_digits I dsI X HI (exponentStart_stops X HX)).
    assert (Hr : match X with
                 | "."%char :: r => Text.takeDigits 10 r
                 | _ => ([], X)
                 end = ([], X))
      by (destruct HX as [-> | [X' ->]]; reflexivity).
    rewrite Hr, Hex. destruct (dsI ++ []) eqn:E; [contradiction | reflexivity].
Qed.

Lemma digit_cases (c : ascii) (d : N) :
  Text.digitValue 10 c = Some d ->
  In c ["0"; "1"; "2"; "3"; "4"; "5"; "6"; "7"; "8"; "9"]%char.
Proof.
  destruct c as [[] [] [] [] [] [] [] []]; vm_compute; intros H;
    try discriminate H; tauto.
Qed.

Lemma digit_not_space (c : ascii) (d : N) :
  Text.digitValue 10 c = Some d -> Text.isWhiteSpace c = false.
Proof.
  intros H%digit_cases. simpl in H.
  repeat (destruct H as [<- | H]; [reflexivity |]). contradiction.
Qed.

Lemma trimChars_clean (cs : list ascii) :
  clean cs -> clean (rev cs) -> Text.trimChars cs = cs.
Proof.
  intros H1 H2. unfold Text.trimChars.
  rewrite (trimStart_of_clean cs H1), (trimStart_of_clean (rev cs) H2).
  apply rev_involutive.
Qed.

Lemma Number_plain (s : string) :
  plainStart (list_ascii_of_string s) -> clean (rev (list_ascii_of_string s)) ->
  Text.Number s = Text.parseSigned false (list_ascii_of_string s).
Proof.
  intros (c & d & rest & Hcs & Hc & Hrest) Hend. unfold Text.Number.
  rewrite trimChars_clean; [| rewrite Hcs; simpl; now apply digit_not_space with d
                            | exact Hend].
  rewrite Hcs. apply digit_cases in Hc. simpl in Hc.
  destruct Hrest as [-> | (c' & rest' & -> & [[d' Hc'] | [-> | ->]])].
  - repeat (destruct Hc as [<- | Hc]; [reflexivity |]). contradiction.
  - apply digit_cases in Hc'. simpl in Hc'.
    repeat (destruct Hc as [<- | Hc];
            [repeat (destruct Hc' as [<- | Hc']; [reflexivity |]); contradiction |]).
    contradiction.
  - repeat (destruct Hc as [<- | Hc]; [reflexivity |]). contradiction.
  - repeat (destruct Hc as [<- | Hc]; [reflexivity |]). contradiction.
Qed.

Lemma parseSigned_plain (neg : bool) (cs : list ascii) :
  plainStart cs ->
  Text.parseSigned neg cs =
    match Text.parseUnsignedDecimal cs with
    | Some q => Finite (if neg then - q else q)%Q
    | None => NaN
    end.
Proof.
  intros (c & d & rest & -> & Hc & _). unfold Text.parseSigned.
  destruct (decide (c :: rest = Text.infinityChars)) as [E | _]; [| reflexivity].
  injection E as -> _. discriminate Hc.
Qed.

(** *** The value of a written number *)

Lemma tenTo_nonzero (z : Z) : ~ (tenTo z == 0)%Q.
Proof.
  unfold tenTo. intros H. apply Qpower_not_0 in H; [exact H | discriminate].
Qed.

Lemma tenTo_add (a b : Z) : (tenTo (a + b) == tenTo a * tenTo b)%Q.
Proof. unfold tenTo. apply Qpower_plus. discriminate. Qed.

Lemma tenTo_nat (n : Z) : 0 <= n -> (inject_Z (10 ^ n) == tenTo n)%Q.
Proof. intros H. unfold tenTo. now rewrite Zpower_Qpower. Qed.

Lemma pow10_tenTo (e : Z) : (Text.pow10 e == tenTo e)%Q.
Proof.
  unfold Text.pow10. destruct (Z.leb_spec 0 e) as [H | H].
  - now apply tenTo_nat.
  - replace e with (- (- e)) at 2 by lia. unfold tenTo.
    rewrite Qpower_opp. fold (tenTo (- e)). rewrite <- tenTo_nat by lia.
    assert (Hpos : 0 < 10 ^ (- e)) by (apply Z.pow_pos_nonneg; lia).
    destruct (10 ^ (- e)) as [| p | p] eqn:E; try lia.
    reflexivity.
Qed.

Lemma scaleToInteger_exact (den : Z) (fuel : nat) :
  0 < den ->
  forall (num j : Z),
    (exists i : nat, (i <= fuel)%nat /\ (den | num * 10 ^ Z.of_nat i)) ->
    fst (Text.scaleToInteger fuel num den j) * den
      = num * 10 ^ (snd (Text.scaleToInteger fuel num den j) - j) /\
    j <= snd (Text.scaleToInteger fuel num den j).
Proof.
  intros Hden. induction fuel as [| fuel IH]; intros num j (i & Hi & Hdiv).
  - assert (i = 0%nat) by lia. subst i. simpl in Hdiv. rewrite Z.mul_1_r in Hdiv.
    apply Z.mod_divide in Hdiv; [| lia]. simpl. rewrite Hdiv. simpl.
    rewrite Z.sub_diag, Z.mul_1_r. split; [| lia].
    rewrite Z.mul_comm. symmetry. apply Z_div_exact_full_2; lia.
  - cbn [Text.scaleToInteger].
    destruct (Z.eqb_spec (num mod den) 0) as [E | E].
    + simpl. rewrite Z.sub_diag, Z.mul_1_r. split; [| lia].
      rewrite Z.mul_comm. symmetry. apply Z_div_exact_full_2; lia.
    + destruct i as [| i].
      * simpl in Hdiv. rewrite Z.mul_1_r in Hdiv.
        apply Z.mod_divide in Hdiv; [contradiction | lia].
      * destruct (IH (num * 10) (j + 1)) as [Hv Hj].
        { exists i. split; [lia |].
          replace (num * 10 * 10 ^ Z.of_nat i) with (num * 10 ^ Z.of_nat (S i));
            [exact Hdiv |].
          rewrite Nat2Z.inj_succ, Z.pow_succ_r by lia. lia. }
        split; [| lia]. rewrite Hv.
        replace (snd (Text.scaleToInteger fuel (num * 10) den (j + 1)) - j)
          with (Z.succ (snd (Text.scaleToInteger fuel (num * 10) den (j + 1)) - (j + 1)))
          by lia.
        rewrite Z.pow_succ_r by lia. lia.
Qed.

Lemma stripZeros_value (fuel : nat) :
  forall (m e : Z),
    0 < m ->
    fst (Text.stripZeros fuel m e) * 10 ^ (snd (Text.stripZeros fuel m e) - e) = m /\
    e <= snd (Text.stripZeros fuel m e) /\
    0 < fst (Text.stripZeros fuel m e).
Proof.
  induction fuel as [| fuel IH]; intros m e Hm; simpl.
  - rewrite Z.sub_diag. lia.
  - destruct (Z.eqb_spec (m mod 10) 0) as [E | E]; simpl.
    + destruct (Z.eqb_spec m 0); [lia |]. simpl.
      assert (Hm10 : m = 10 * (m / 10)) by (apply Z_div_exact_full_2; lia).
      destruct (IH (m / 10) (e + 1)) as (Hv & He & Hs); [lia |].
      split; [| split; [lia | exact Hs]].
      replace (snd (Text.stripZeros fuel (m / 10) (e + 1)) - e)
        with (Z.succ (snd (Text.stripZeros fuel (m / 10) (e + 1)) - (e + 1))) by lia.
      rewrite Z.pow_succ_r by lia. lia.
    + rewrite Z.sub_diag. lia.
Qed.

Lemma size_nat_bound (p : positive) : Zpos p < 2 ^ Z.of_nat (Pos.size_nat p).
Proof.
  induction p as [p IH | p IH |]; simpl Pos.size_nat;
    rewrite ?Nat2Z.inj_succ, ?Z.pow_succ_r by lia; lia.
Qed.

Lemma power_of_ten_size (p : positive) (k : nat) :
  Zpos p = 10 ^ Z.of_nat k -> (k <= Pos.size_nat p)%nat.
Proof.
  intros H. pose proof (size_nat_bound p) as Hs. rewrite H in Hs.
  assert (H2 : 2 ^ Z.of_nat k <= 10 ^ Z.of_nat k)
    by (apply Z.pow_le_mono_l; lia).
  assert (Hlt : 2 ^ Z.of_nat k < 2 ^ Z.of_nat (Pos.size_nat p)) by lia.
  apply Z.pow_lt_mono_r_iff in Hlt; lia.
Qed.

(** The digits and the exponent that [String_of_number] works with: for a
    decimal [x] that is not zero, [|x| = s * 10^e] with [s] positive. *)
Lemma written_decomposition (x : Q) :
  decimal x -> Qnum x <> 0 ->
  forall (m0 j s e : Z),
    Text.scaleToInteger (Pos.size_nat (Qden x)) (Z.abs (Qnum x)) (Zpos (Qden x)) 0
      = (m0, j) ->
    Text.stripZeros (Z.to_nat (Z.log2 m0 + 1)) m0 (- j) = (s, e) ->
    0 < s /\ (inject_Z s * tenTo e == Z.abs (Qnum x) # Qden x)%Q.
Proof.
  intros [k Hk] Hnum m0 j s e Hscale Hstrip.
  destruct (scaleToInteger_exact (Zpos (Qden x)) (Pos.size_nat (Qden x))
              ltac:(lia) (Z.abs (Qnum x)) 0) as [Hm0 Hj].
  { exists k. split; [now apply power_of_ten_size |].
    rewrite Hk. apply Z.divide_factor_r. }
  rewrite Hscale in Hm0, Hj. simpl in Hm0, Hj. rewrite Z.sub_0_r in Hm0.
  assert (Hm0pos : 0 < m0).
  { assert (0 < m0 * Zpos (Qden x)); [| nia].
    rewrite Hm0. apply Z.mul_pos_pos; [lia |]. apply Z.pow_pos_nonneg; lia. }
  destruct (stripZeros_value (Z.to_nat (Z.log2 m0 + 1)) m0 (- j) Hm0pos)
    as (Hs & He & Hspos).
  rewrite Hstrip in Hs, He, Hspos. simpl in Hs, He, Hspos.
  split; [exact Hspos |].
  assert (E1 : (inject_Z s * tenTo (e + j) == inject_Z m0)%Q).
  { rewrite <- tenTo_nat by lia. rewrite <- inject_Z_mult.
    replace (e + j) with (e - - j) by lia. now rewrite Hs. }
  assert (E2 : (inject_Z m0 * inject_Z (Zpos (Qden x))
                == inject_Z (Z.abs (Qnum x)) * tenTo j)%Q).
  { rewrite <- tenTo_nat by lia. rewrite <- !inject_Z_mult. now rewrite Hm0. }
  rewrite (Qmake_Qdiv (Z.abs (Qnum x)) (Qden x)).
  assert (E3 : (tenTo e == tenTo (e + j) / tenTo j)%Q).
  { rewrite tenTo_add. field. apply tenTo_nonzero. }
  rewrite E3.
  assert (Hd : ~ (inject_Z (Zpos (Qden x)) == 0)%Q) by discriminate.
  pose proof (tenTo_nonzero j) as Hj0.
  apply (Qmult_inj_r _ _ (inject_Z (Z.pos (Qden x)) * tenTo j)).
  { intros H. apply Qmult_integral in H. tauto. }
  transitivity (inject_Z s * tenTo (e + j) * inject_Z (Z.pos (Qden x)))%Q;
    [field; exact Hj0 |].
  rewrite E1, E2. field. exact Hd.
Qed.

(** *** The text that [String_of_number] writes *)

Lemma String_of_number_written (x : Q) (m0 j s e : Z) :
  Qeq_bool x 0 = false ->
  Text.scaleToInteger (Pos.size_nat (Qden x)) (Z.abs (Qnum x)) (Zpos (Qden x)) 0
    = (m0, j) ->
  Text.stripZeros (Z.to_nat (Z.log2 m0 + 1)) m0 (- j) = (s, e) ->
  Text.String_of_number x =
    if negb (Qle_bool 0 x) then "-" +:+ writtenBody s e else writtenBody s e.
Proof.
  intros Hx Hscale Hstrip. unfold Text.String_of_number.
  now rewrite Hx, Hscale, Hstrip.
Qed.

Lemma chars_zeros (n : Z) :
  list_ascii_of_string (Text.zeros n) = repeat "0"%char (Z.to_nat n).
Proof. unfold Text.zeros. apply list_ascii_of_string_of_list_ascii. Qed.

Lemma clean_rev_end (pre D : list ascii) (ds : list N) :
  digitsOf D ds -> D <> [] -> clean (rev (pre ++ D)).
Proof.
  intros HD Hne. destruct (rev D) as [| c r] eqn:E.
  - apply (f_equal (@rev ascii)) in E. rewrite rev_involutive in E. contradiction.
  - rewrite rev_app_distr, E. simpl.
    assert (Hin : c ∈ D).
    { apply list_elem_of_In, in_rev. rewrite E. now left. }
    destruct (proj1 (list_elem_of_lookup _ _) Hin) as [i Hi].
    destruct (Forall2_lookup_l _ _ _ _ _ HD Hi) as (d & _ & Hc).
    now apply digit_not_space with d.
Qed.

Lemma plainStart_digits (I rest : list ascii) (dsI : list N) :
  digitsOf I dsI -> I <> [] -> follows rest -> plainStart (I ++ rest).
Proof.
  intros HI Hne Hrest. destruct HI as [| c d I' ds' Hc HI']; [contradiction |].
  exists c, d, (I' ++ rest). split; [reflexivity |]. split; [exact Hc |].
  destruct HI' as [| c' d' I'' ds'' Hc' _]; [exact Hrest |].
  right. exists c', (I'' ++ rest). split; [reflexivity |]. left. now exists d'.
Qed.

Lemma digitsOf_take (n : nat) (cs : list ascii) (ds : list N) :
  digitsOf cs ds -> digitsOf (take n cs) (take n ds).
Proof. apply Forall2_take. Qed.

Lemma digitsOf_drop (n : nat) (cs : list ascii) (ds : list N) :
  digitsOf cs ds -> digitsOf (drop n cs) (drop n ds).
Proof. apply Forall2_drop. Qed.

Lemma valN_leading_zeros (k : nat) (ds : list N) :
  valN (repeat 0%N k ++ ds) = valN ds.
Proof. rewrite valN_app, valN_zeros. lia. Qed.

Lemma reads_integer (cs : list ascii) (ds : list N) (z : nat) :
  digitsOf cs ds -> cs <> [] ->
  ReadsAs (cs ++ repeat "0"%char z)
          (inject_Z (Z.of_N (valN ds)) * tenTo (Z.of_nat z)).
Proof.
  intros Hd Hne.
  assert (Hall : digitsOf (cs ++ repeat "0"%char z) (ds ++ repeat 0%N z))
    by (apply Forall2_app; [exact Hd | apply digitsOf_zeros]).
  assert (Hne' : cs ++ repeat "0"%char z <> []) by (now destruct cs).
  split; [| split].
  - pose proof (parseUnsignedDecimal_written (cs ++ repeat "0"%char z) [] []
                  (ds ++ repeat 0%N z) [] false 0 Hall ltac:(constructor)
                  ltac:(reflexivity)) as Hp.
    rewrite !app_nil_r in Hp. rewrite Hp.
    + eexists. split; [reflexivity |].
      rewrite fromDigits_valN, valN_app, valN_zeros, repeat_length.
      rewrite N.add_0_r, N2Z.inj_mul, N2Z.inj_pow, nat_N_Z. simpl (Z.of_N 10).
      rewrite inject_Z_mult, tenTo_nat by lia.
      rewrite pow10_tenTo. cbn [length]. change (tenTo (0 - Z.of_nat 0)) with 1%Q.
      ring.
    + apply digitsOf_length in Hall. intros E. rewrite E in Hall.
      now destruct (cs ++ repeat "0"%char z).
    + now left.
    + reflexivity.
  - rewrite <- (app_nil_r (cs ++ repeat "0"%char z)).
    apply (plainStart_digits _ [] _ Hall Hne'). now left.
  - apply (clean_rev_end [] _ _ Hall Hne').
Qed.

Lemma reads_general (I F X : list ascii) (dsI dsF : list N) (dot : bool) (ex : Z) :
  digitsOf I dsI -> digitsOf F dsF -> I <> [] -> (dot = false -> F = []) ->
  exponentStart X -> Text.parseExponent X = Some ex ->
  clean (rev (I ++ (if dot then "."%char :: F else []) ++ X)) ->
  ReadsAs (I ++ (if dot then "."%char :: F else []) ++ X)
          (inject_Z (Z.of_N (valN (dsI ++ dsF)))
           * tenTo (ex - Z.of_nat (length dsF))).
Proof.
  intros HI HF Hne Hdot HX Hex Hend. split; [| split; [| exact Hend]].
  - rewrite (parseUnsignedDecimal_written I F X dsI dsF dot ex);
      try assumption.
    + eexists. split; [reflexivity |]. now rewrite pow10_tenTo, fromDigits_valN.
    + apply digitsOf_length in HI. destruct I, dsI; try discriminate; congruence.
  - apply (plainStart_digits I _ dsI HI Hne).
    destruct dot.
    + right. eexists _, _. split; [reflexivity |]. right. now left.
    + destruct HX as [-> | [X' ->]]; [now left |].
      right. eexists _, _. split; [reflexivity |]. right. now right.
Qed.

Lemma ReadsAs_eq (cs : list ascii) (v v' : Q) :
  (v == v')%Q -> ReadsAs cs v -> ReadsAs cs v'.
Proof.
  intros Hv ((q & Hp & Hq) & Hstart & Hend).
  split; [| now split]. exists q. split; [exact Hp |]. now rewrite Hq.
Qed.

Lemma writtenBody_reads (s e : Z) :
  0 < s ->
  ReadsAs (list_ascii_of_string (writtenBody s e)) (inject_Z s * tenTo e).
Proof.
  intros Hs.
  destruct (pretty_N_chars (Z.to_N s)) as (cs & ds & Hcs & Hd & Hv & Hne).
  assert (Hval : Z.of_N (valN ds) = s) by (rewrite Hv; lia).
  assert (Hlen : String.length (pretty (Z.to_N s)) = length cs)
    by (now rewrite <- chars_length, Hcs).
  assert (Hlen' : length ds = length cs) by (symmetry; now apply digitsOf_length).
  assert (Hpos : (0 < length cs)%nat) by (destruct cs; [contradiction | simpl; lia]).
  unfold writtenBody. rewrite Hlen.
  set (k := Z.of_nat (length cs)).
  destruct ((k <=? k + e) && (k + e <=? 21)) eqn:C1.
  { (* digits followed by zeros *)
    apply andb_true_iff in C1 as [C1 _]. apply Z.leb_le in C1.
    rewrite chars_app, chars_zeros, Hcs.
    replace (k + e - k) with e by lia.
    apply (ReadsAs_eq _ (inject_Z (Z.of_N (valN ds)) * tenTo (Z.of_nat (Z.to_nat e)))).
    - rewrite Hval, Z2Nat.id by lia. reflexivity.
    - now apply reads_integer. }
  destruct ((0 <? k + e) && (k + e <=? 21)) eqn:C2.
  { (* a point inside the digits *)
    apply andb_true_iff in C2 as [C2 C2']. apply Z.ltb_lt in C2. apply Z.leb_le in C2'.
    apply andb_false_iff in C1 as [C1 | C1];
      [apply Z.leb_gt in C1 | apply Z.leb_gt in C1; lia].
    rewrite !chars_app, !chars_substring, Hcs. simpl (list_ascii_of_string ".").
    rewrite drop_0.
    rewrite (take_ge (drop (Z.to_nat (k + e)) cs))
      by (rewrite length_drop; lia).
    set (n := Z.to_nat (k + e)).
    assert (HF : drop n cs <> []).
    { intros E. apply (f_equal (@length ascii)) in E.
      rewrite length_drop in E. simpl in E. lia. }
    assert (HI : take n cs <> []).
    { intros E. apply (f_equal (@length ascii)) in E.
      rewrite length_take in E. simpl in E. lia. }
    pose proof (reads_general (take n cs) (drop n cs) [] (take n ds) (drop n ds)
                  true 0 (digitsOf_take n cs ds Hd) (digitsOf_drop n cs ds Hd) HI
                  ltac:(discriminate) ltac:(now left) eq_refl) as R.
    rewrite app_nil_r, take_drop in R. cbn [app] in *.
    assert (Hend : clean (rev (take n cs ++ "."%char :: drop n cs))).
    { change (take n cs ++ "."%char :: drop n cs)
        with (take n cs ++ ["."%char] ++ drop n cs).
      rewrite app_assoc. apply clean_rev_end with (drop n ds);
        [now apply digitsOf_drop | exact HF]. }
    eapply ReadsAs_eq; [| exact (R Hend)].
    rewrite Hval, length_drop. replace (0 - Z.of_nat (length ds - n)) with e by lia.
    reflexivity. }
  destruct ((-6 <? k + e) && (k + e <=? 0)) eqn:C3.
  { (* zeros after the point *)
    apply andb_true_iff in C3 as [C3 C3']. apply Z.ltb_lt in C3. apply Z.leb_le in C3'.
    rewrite !chars_app, chars_zeros, Hcs. simpl (list_ascii_of_string "0.").
    set (z := Z.to_nat (- (k + e))).
    pose proof (reads_general ["0"%char] (repeat "0"%char z ++ cs) []
                  [0%N] (repeat 0%N z ++ ds) true 0
                  ltac:(repeat constructor)
                  ltac:(apply Forall2_app; [apply digitsOf_zeros | exact Hd])
                  ltac:(discriminate) ltac:(discriminate) ltac:(now left) eq_refl) as R.
    rewrite app_nil_r in R. cbn [app] in *.
    assert (Hend : clean (rev ("0"%char :: "."%char :: repeat "0"%char z ++ cs))).
    { change ("0"%char :: "."%char :: repeat "0"%char z ++ cs)
        with (("0"%char :: "."%char :: repeat "0"%char z) ++ cs).
      now apply clean_rev_end with ds. }
    eapply ReadsAs_eq; [| exact (R Hend)].
    change (0%N :: repeat 0%N z ++ ds) with (repeat 0%N (S z) ++ ds).
    rewrite valN_leading_zeros, Hval.
    change (repeat 0%N (S z) ++ ds) with (0%N :: repeat 0%N z ++ ds).
    cbn [length]. rewrite length_app, repeat_length.
    replace (0 - Z.of_nat (z + length ds)) with e by lia. reflexivity. }
  (* exponent notation *)
  destruct (pretty_N_chars (Z.to_N (Z.abs (k + e - 1))))
    as (ce & de & Hce & Hde & Hve & Hnee).
  set (neg := k + e - 1 <? 0).
  assert (Hex : (if neg then -1 else 1) * Text.fromDigits 10 de = k + e - 1).
  { rewrite fromDigits_valN, Hve. unfold neg.
    destruct (Z.ltb_spec (k + e - 1) 0); lia. }
  assert (Hmant :
    list_ascii_of_string
      (if k =? 1 then pretty (Z.to_N s)
       else substring 0 1 (pretty (Z.to_N s)) +:+ "." +:+
            substring 1 (Z.to_nat (k - 1)) (pretty (Z.to_N s)))
    = take 1 cs ++ (if negb (k =? 1) then "."%char :: drop 1 cs else [])).
  { destruct (Z.eqb_spec k 1) as [K | K]; simpl negb; cbv iota.
    - rewrite Hcs, app_nil_r, take_ge; [reflexivity | unfold k in K; lia].
    - rewrite !chars_app, !chars_substring, Hcs, drop_0.
      simpl (list_ascii_of_string ".").
      rewrite (take_ge (drop 1 cs)) by (rewrite length_drop; unfold k; lia).
      reflexivity. }
  rewrite chars_app, Hmant, !chars_app, Hce.
  assert (Hsign : list_ascii_of_string (if neg then "-" else "+")
                  = [if neg then "-"%char else "+"%char])
    by (now destruct neg).
  rewrite Hsign. simpl (list_ascii_of_string "e").
  assert (HI : take 1 cs <> []).
  { intros E. apply (f_equal (@length ascii)) in E.
    rewrite length_take in E. cbn [length] in E. lia. }
  assert (Hdot : negb (k =? 1) = false -> drop 1 cs = []).
  { intros K. apply negb_false_iff, Z.eqb_eq in K.
    apply drop_ge. unfold k in K. lia. }
  pose proof (reads_general (take 1 cs) (drop 1 cs)
                ("e"%char :: (if neg then "-"%char else "+"%char) :: ce)
                (take 1 ds) (drop 1 ds) (negb (k =? 1)) (k + e - 1)
                (digitsOf_take 1 cs ds Hd) (digitsOf_drop 1 cs ds Hd) HI Hdot
                ltac:(right; now eexists)) as R.
  rewrite take_drop in R.
  rewrite <- app_assoc. cbn [app] in *.
  assert (Hpe : Text.parseExponent
                  ("e"%char :: (if neg then "-"%char else "+"%char) :: ce)
                = Some (k + e - 1))
    by (rewrite <- Hex; now apply parseExponent_written).
  assert (Hend : clean (rev (take 1 cs
                    ++ (if negb (k =? 1) then "."%char :: drop 1 cs else [])
                    ++ "e"%char :: (if neg then "-"%char else "+"%char) :: ce))).
  { change (take 1 cs ++ (if negb (k =? 1) then "."%char :: drop 1 cs else [])
            ++ "e"%char :: (if neg then "-"%char else "+"%char) :: ce)
      with (take 1 cs ++ (if negb (k =? 1) then "."%char :: drop 1 cs else [])
            ++ ["e"%char; (if neg then "-"%char else "+"%char)] ++ ce).
    rewrite !app_assoc. now apply clean_rev_end with de. }
  eapply ReadsAs_eq; [| exact (R Hpe Hend)].
  rewrite Hval, length_drop.
  replace (k + e - 1 - Z.of_nat (length ds - 1)) with e by lia.
  reflexivity.
Qed.

Lemma plainStart_clean (cs : list ascii) : plainStart cs -> clean cs /\ cs <> [].
Proof.
  intros (c & d & rest & -> & Hc & _). split; [| discriminate].
  simpl. now apply digit_not_space with d.
Qed.

Lemma clean_rev_cons (c : ascii) (cs : list ascii) :
  cs <> [] -> clean (rev cs) -> clean (rev (c :: cs)).
Proof.
  intros Hne H. simpl. destruct (rev cs) as [| c' r] eqn:E; [| exact H].
  apply (f_equal (@rev ascii)) in E. rewrite rev_involutive in E. contradiction.
Qed.

Lemma Number_minus (s : string) (cs : list ascii) :
  list_ascii_of_string s = "-"%char :: cs -> cs <> [] -> clean (rev cs) ->
  Text.Number s = Text.parseSigned true cs.
Proof.
  intros Hs Hne Hend. unfold Text.Number. rewrite Hs.
  rewrite trimChars_clean; [reflexivity | reflexivity |].
  now apply clean_rev_cons.
Qed.

(** The text of a decimal number, read back by [Number], is the number. *)
Lemma String_of_number_reads (x : Q) :
  decimal x ->
  exists y : Q,
    Text.Number (Text.String_of_number x) = Finite y /\ (y == x)%Q /\
    clean (list_ascii_of_string (Text.String_of_number x)) /\
    clean (rev (list_ascii_of_string (Text.String_of_number x))) /\
    list_ascii_of_string (Text.String_of_number x) <> [].
Proof.
  intros Hdec. destruct (Qeq_bool x 0) eqn:Hx.
  - unfold Text.String_of_number. rewrite Hx. eexists.
    split; [reflexivity |]. split; [| repeat split; discriminate].
    apply Qeq_bool_eq in Hx. rewrite Hx. reflexivity.
  - assert (Hnum : Qnum x <> 0).
    { intros E. apply Qeq_bool_neq in Hx. apply Hx.
      unfold Qeq. simpl. rewrite E. reflexivity. }
    destruct (Text.scaleToInteger (Pos.size_nat (Qden x)) (Z.abs (Qnum x))
                (Zpos (Qden x)) 0) as [m0 j] eqn:Hscale.
    destruct (Text.stripZeros (Z.to_nat (Z.log2 m0 + 1)) m0 (- j)) as [s e] eqn:Hstrip.
    destruct (written_decomposition x Hdec Hnum m0 j s e Hscale Hstrip) as [Hs Hval].
    rewrite (String_of_number_written x m0 j s e Hx Hscale Hstrip).
    destruct (writtenBody_reads s e Hs) as ((q & Hp & Hq) & Hstart & Hend).
    destruct (plainStart_clean _ Hstart) as [Hclean Hne].
    destruct (Qle_bool 0 x) eqn:Hsign; simpl negb; cbv iota.
    + exists q. rewrite (Number_plain _ Hstart Hend), (parseSigned_plain _ _ Hstart), Hp.
      split; [reflexivity |]. split; [| now repeat split].
      rewrite Hq, Hval. apply Qle_bool_iff in Hsign.
      unfold Qle in Hsign. simpl in Hsign. unfold Qeq. simpl.
      rewrite Z.abs_eq by lia. reflexivity.
    + exists (- q)%Q.
      assert (Hchars : list_ascii_of_string ("-" +:+ writtenBody s e)
                       = "-"%char :: list_ascii_of_string (writtenBody s e))
        by reflexivity.
      rewrite (Number_minus _ _ Hchars Hne Hend), (parseSigned_plain _ _ Hstart), Hp.
      split; [reflexivity |]. rewrite Hchars.
      split; [| split; [reflexivity | split; [now apply clean_rev_cons | discriminate]]].
      rewrite Hq, Hval. apply geq_false in Hsign.
      unfold Qlt in Hsign. simpl in Hsign. unfold Qeq. simpl.
      rewrite Z.abs_neq by lia. lia.
Qed.

Lemma trim_of_clean (s : string) :
  clean (list_ascii_of_string s) -> clean (rev (list_ascii_of_string s)) ->
  Text.trim s = s.
Proof.
  intros H1 H2. unfold Text.trim. rewrite trimChars_clean by assumption.
  apply string_of_list_ascii_of_string.
Qed.

Lemma parseNumber_written (x : Q) :
  decimal x ->
  exists y : Q, parseNumber (Text.String_of_number x) = Some y /\ (y == x)%Q.
Proof.
  intros Hdec.
  destruct (String_of_number_reads x Hdec) as (y & Hn & Hy & Hc & He & Hne).
  exists y. split; [| exact Hy]. unfold parseNumber.
  rewrite (trim_of_clean _ Hc He), Hn.
  destruct (decide (Text.String_of_number x = "")) as [E | _]; [| reflexivity].
  rewrite E in Hne. now destruct Hne.
Qed.

(** *** What [Number] reads is a decimal *)

Lemma pow10_decimal (e : Z) : decimal (Text.pow10 e).
Proof.
  unfold Text.pow10, decimal. destruct (Z.leb_spec 0 e) as [H | H].
  - now exists 0%nat.
  - exists (Z.to_nat (- e)). simpl. rewrite Z2Nat.id by lia.
    apply Z2Pos.id. apply Z.pow_pos_nonneg; lia.
Qed.

Lemma parseUnsignedDecimal_decimal (cs : list ascii) (q : Q) :
  Text.parseUnsignedDecimal cs = Some q -> decimal q.
Proof.
  unfold Text.parseUnsignedDecimal.
  destruct (Text.takeDigits 10 cs) as [ip r1].
  destruct (match r1 with
            | "."%char :: r => Text.takeDigits 10 r
            | _ => ([], r1)
            end) as [fp r2].
  destruct (ip ++ fp); [discriminate |].
  destruct (Text.parseExponent r2) as [e |]; [| discriminate].
  intros [= <-]. destruct (pow10_decimal (e - Z.of_nat (length fp))) as [k Hk].
  exists k. simpl. exact Hk.
Qed.

Lemma parseSigned_decimal (neg : bool) (cs : list ascii) (x : Q) :
  Text.parseSigned neg cs = Finite x -> decimal x.
Proof.
  unfold Text.parseSigned.
  destruct (decide (cs = Text.infinityChars)); [now destruct neg |].
  destruct (Text.parseUnsignedDecimal cs) as [q |] eqn:E; [| discriminate].
  intros [= <-]. apply parseUnsignedDecimal_decimal in E.
  now destruct neg.
Qed.

Lemma parseRadix_decimal (base : N) (cs : list ascii) (x : Q) :
  Text.parseRadix base cs = Finite x -> decimal x.
Proof.
  unfold Text.parseRadix. destruct (Text.takeDigits base cs) as [[| d ds] [| c r]];
    try discriminate.
  intros [= <-]. now exists 0%nat.
Qed.

Lemma Number_decimal (s : string) (x : Q) : Text.Number s = Finite x -> decimal x.
Proof.
  unfold Text.Number. intros H.
  repeat case_match; subst;
    first [ now apply parseSigned_decimal in H
          | now apply parseRadix_decimal in H
          | injection H as <-; now exists 0%nat ].
Qed.

Lemma parseNumber_decimal (s : string) (x : Q) : parseNumber s = Some x -> decimal x.
Proof.
  unfold parseNumber. destruct (decide (Text.trim s = "")); [discriminate |].
  destruct (Text.Number (Text.trim s)) as [| | | q] eqn:E; try discriminate.
  intros [= <-]. now apply Number_decimal with (Text.trim s).
Qed.

(** *** Scores do not depend on how a number is written *)

Lemma temperature_score_same_number (s s' : string) (x y : Q) :
  parseNumber s = Some x -> parseNumber s' = Some y -> (y == x)%Q ->
  getTemperatureScore s' = getTemperatureScore s.
Proof.
  intros Hs Hs' Hy. unfold getTemperatureScore. rewrite Hs, Hs'.
  now rewrite !(Qleb_comp _ _ (Qeq_refl _) _ _ Hy), !(Qleb_comp _ _ Hy _ _ (Qeq_refl _)).
Qed.

Lemma age_score_same_number (s s' : string) (x y : Q) :
  parseNumber s = Some x -> parseNumber s' = Some y -> (y == x)%Q ->
  getAgeScore s' = getAgeScore s.
Proof.
  intros Hs Hs' Hy. unfold getAgeScore. rewrite Hs, Hs'.
  now rewrite !(Qleb_comp _ _ (Qeq_refl _) _ _ Hy), !(Qleb_comp _ _ Hy _ _ (Qeq_refl _)).
Qed.

Lemma blood_pressure_score_same_numbers (a b a' b' : string) (x y x' y' : Q) :
  parseNumber a = Some x -> parseNumber b = Some y ->
  parseNumber a' = Some x' -> parseNumber b' = Some y' ->
  (x' == x)%Q -> (y' == y)%Q ->
  getBloodPressureScore a' b' = getBloodPressureScore a b.
Proof.
  intros Ha Hb Ha' Hb' Hx Hy. unfold getBloodPressureScore.
  rewrite Ha, Hb, Ha', Hb'.
  now rewrite !(Qleb_comp _ _ (Qeq_refl _) _ _ Hx), !(Qleb_comp _ _ Hx _ _ (Qeq_refl _)),
    !(Qleb_comp _ _ (Qeq_refl _) _ _ Hy), !(Qleb_comp _ _ Hy _ _ (Qeq_refl _)).
Qed.

Lemma temperature_score_written (s : string) (x : Q) :
  parseNumber s = Some x ->
  getTemperatureScore (Text.String_of_number x) = getTemperatureScore s.
Proof.
  intros Hs.
  destruct (parseNumber_written x (parseNumber_decimal s x Hs)) as (y & Hy & Hyx).
  now apply temperature_score_same_number with x y.
Qed.

Lemma age_score_written (s : string) (x : Q) :
  parseNumber s = Some x ->
  getAgeScore (Text.String_of_number x) = getAgeScore s.
Proof.
  intros Hs.
  destruct (parseNumber_written x (parseNumber_decimal s x Hs)) as (y & Hy & Hyx).
  now apply age_score_same_number with x y.
Qed.

Lemma blood_pressure_score_written (a b : string) (x y : Q) :
  parseNumber a = Some x -> parseNumber b = Some y ->
  getBloodPressureScore (Text.String_of_number x) (Text.String_of_number y)
  = getBloodPressureScore a b.
Proof.
  intros Ha Hb.
  destruct (parseNumber_written x (parseNumber_decimal a x Ha)) as (x' & Hx' & Hxx).
  destruct (parseNumber_written y (parseNumber_decimal b y Hb)) as (y' & Hy' & Hyy).
  now apply blood_pressure_score_same_numbers with x y x' y'.
Qed.

(** X24.  The batch and the calculator form score alike.  For a record
    that is kept, a temperature or an age given as text scores as the
    calculator scores that text, and a blood pressure given as text scores
    as the calculator scores its first two parts around the slash; with all
    three given as text the total is the calculator's total. *)
Theorem batch_scores_as_calculator (r : Raw.Patient) (n : Norm.Patient) :
  normalizePatient r = Some n ->
  (∀ t, Raw.temperature r = JString t -> Norm.tempScore n = getTemperatureScore t) ∧
  (∀ g, Raw.age r = JString g -> Norm.ageScore n = getAgeScore g) ∧
  (∀ s a b rest,
     Raw.blood_pressure r = JString s ->
     Text.split "/" (Text.trim s) = a :: b :: rest ->
     Norm.bpScore n = getBloodPressureScore a b) ∧
  (∀ t g s a b rest,
     Raw.temperature r = JString t -> Raw.age r = JString g ->
     Raw.blood_pressure r = JString s ->
     Text.split "/" (Text.trim s) = a :: b :: rest ->
     Norm.total n =
       ScoreBreakdown.total
         (calculateScores {| Inputs.systolic := a; Inputs.diastolic := b;
                             Inputs.temperature := t; Inputs.age := g |})).
Proof.
  intros Hn. unfold normalizePatient in Hn.
  destruct (falsy _); [discriminate |]. injection Hn as <-.
  cbn [Norm.tempScore Norm.ageScore Norm.bpScore Norm.total].
  assert (Ht : ∀ t, Raw.temperature r = JString t ->
     getTemperatureScore
       (default "" (Text.String_of_number <$> parseTemperatureValue (Raw.temperature r)))
     = getTemperatureScore t).
  { intros t ->. cbn [parseTemperatureValue].
    destruct (parseNumber t) as [x |] eqn:E; cbn [fmap option_fmap option_map default].
    - now apply temperature_score_written.
    - unfold getTemperatureScore. now rewrite E, parseNumber_empty. }
  assert (Hg : ∀ g, Raw.age r = JString g ->
     getAgeScore (default "" (Text.String_of_number <$> parseAgeValue (Raw.age r)))
     = getAgeScore g).
  { intros g ->. cbn [parseAgeValue].
    destruct (parseNumber g) as [x |] eqn:E.
    - destruct (x < 0)%js eqn:Neg; cbn [fmap option_fmap option_map default].
      + unfold getAgeScore. now rewrite E, parseNumber_empty, Neg.
      + now apply age_score_written.
    - cbn [fmap option_fmap option_map default].
      unfold getAgeScore. now rewrite E, parseNumber_empty. }
  assert (Hb : ∀ s a b rest,
     Raw.blood_pressure r = JString s ->
     Text.split "/" (Text.trim s) = a :: b :: rest ->
     (if valid (parseBloodPressureReading (Raw.blood_pressure r))
      then getBloodPressureScore
             (default "" (systolic (parseBloodPressureReading (Raw.blood_pressure r))))
             (default "" (diastolic (parseBloodPressureReading (Raw.blood_pressure r))))
      else 0) = getBloodPressureScore a b).
  { intros s a b rest -> Hsplit.
    destruct (parseNumber a) as [x |] eqn:Ea; [destruct (parseNumber b) as [y |] eqn:Eb |].
    - rewrite (reading_of_parts s a b rest x y Hsplit Ea Eb).
      cbn [valid systolic diastolic default].
      now apply blood_pressure_score_written.
    - destruct (valid (parseBloodPressureReading (JString s))) eqn:V.
      + apply reading_valid_inv in V.
        destruct V as (s' & a' & b' & rest' & x' & y' & [= <-] & Hsplit' & _ & Hb').
        rewrite Hsplit in Hsplit'. injection Hsplit' as <- <- <-. congruence.
      + unfold getBloodPressureScore. now rewrite Ea, Eb.
    - destruct (valid (parseBloodPressureReading (JString s))) eqn:V.
      + apply reading_valid_inv in V.
        destruct V as (s' & a' & b' & rest' & x' & y' & [= <-] & Hsplit' & Ha' & _).
        rewrite Hsplit in Hsplit'. injection Hsplit' as <- <- <-. congruence.
      + unfold getBloodPressureScore. now rewrite Ea. }
  split; [exact Ht |]. split; [exact Hg |]. split; [exact Hb |].
  intros t g s a b rest Et Eg Es Hsplit.
  unfold calculateScores.
  cbn [ScoreBreakdown.total Inputs.systolic Inputs.diastolic Inputs.temperature Inputs.age].
  now rewrite (Ht t Et), (Hg g Eg), (Hb s a b rest Es Hsplit).
Qed.

Lemma batch_scores_as_calculator_witness :
  (Norm.total <$> normalizePatient writtenOddly) = Some 8.
Proof.
  destruct (normalizePatient writtenOddly) as [n |] eqn:Hn.
  - simpl. f_equal.
    rewrite (proj2 (proj2 (proj2 (batch_scores_as_calculator writtenOddly n Hn)))
               "1012e-1" " 70.0 " " 1.5e2/0x5F/7 " "1.5e2" "0x5F" ["7"]
               eq_refl eq_refl eq_refl eq_refl).
    reflexivity.
  - discriminate Hn.
Defined.
